(** * zy-mcp: the video tool host (server.py) and its orchestrating client
    (client.py), as a shallow embedding.

  Python values are modelled as follows.
    - [str] is a list of Unicode code points ([pystr]); ASCII literals are
    embedded with [str_of].
    - [dict] payloads with string keys are [gmap string _].
    - exceptions are an inductive type, threaded through an error monad; the
    capture handle and the outside world are threaded as explicit state.
    - calls into external libraries (the [re] engine, [cv2], [numpy], the MCP
    session, the chat-completions gateway, [json]) are modelled by their
    documented contract, or taken as a parameter where the result is not
    determined by the program. *)

From Stdlib Require Import NArith ZArith QArith List Ascii String Bool Lia.
From Stdlib Require Import DecimalString.
From stdpp Require Import base option list strings gmap.
Import ListNotations.

Set Default Proof Using "Type".
Set Warnings "-register-all".
Local Open Scope nat_scope.

(* ===================================================================== *)
(** * Python basics *)
(* ===================================================================== *)

Module Py.

(** A Python [str]: a sequence of code points. *)
Definition pychar := N.
Definition pystr := list pychar.

Fixpoint str_of (s : string) : pystr :=
  match s with
  | EmptyString => []
  | String c rest => N_of_ascii c :: str_of rest
  end.

Definition ch (c : ascii) : pychar := N_of_ascii c.

Definition streq (a b : pystr) : bool := bool_decide (a = b).

(** [str.isspace] on one code point (the Unicode White_Space characters
    plus the four information separators, as CPython has them). *)
Definition isspace (c : pychar) : bool :=
    ((9 <=? c) && (c <=? 13) || (28 <=? c) && (c <=? 32)
   || (c =? 133) || (c =? 160) || (c =? 5760)
   || (8192 <=? c) && (c <=? 8202)
   || (c =? 8232) || (c =? 8233) || (c =? 8239) || (c =? 8287)
   || (c =? 12288))%N.

Fixpoint lstrip (s : pystr) : pystr :=
  match s with
  | c :: t => if isspace c then lstrip t else s
  | [] => []
  end.

Definition rstrip (s : pystr) : pystr := rev (lstrip (rev s)).

(** [s.strip()] *)
Definition strip (s : pystr) : pystr := rstrip (lstrip s).

(** Exceptions the modelled code can meet.  [KeyboardInterrupt] stands for
    the [BaseException]s that are not [Exception]s. *)
Inductive exn :=
| ZeroDivisionError
| TypeError
| ValueError
| OverflowError
| IndexError
| AttributeError
| JSONDecodeError
| OSError
| EOFError
| CvError
| RemoteError (msg : pystr)
| KeyboardInterrupt.

(** [isinstance(e, Exception)] *)
Definition is_Exception (e : exn) : bool :=
  match e with
  | KeyboardInterrupt => false
  | _ => true
  end.

(** The outcome of a call: a value or a raised exception. *)
Inductive result (A : Type) :=
| Ok (a : A)
| Raise (e : exn).
Arguments Ok {A} a.
Arguments Raise {A} e.

(** A Python [float], up to rounding: the finite values are kept as exact
    rationals; the special values are kept apart because [int()] and
    division treat them differently. *)
Inductive pyfloat :=
| Finite (q : Q)
| Inf (negative : bool)
| NaN.

Definition float_of_int (z : Z) : pyfloat := Finite (inject_Z z).

Definition is_zero (x : pyfloat) : bool :=
  match x with
  | Finite q => Qeq_bool q 0
  | _ => false
  end.

(** [int(x)] for a float [x]: truncation towards zero; [OverflowError] on
    an infinity and [ValueError] on a NaN. *)
Definition int_of_float (x : pyfloat) : result Z :=
  match x with
  | Finite q => Ok (Z.quot (Qnum q) (Zpos (Qden q)))
  | Inf _ => Raise OverflowError
  | NaN => Raise ValueError
  end.

(** [n / x] for an int [n] and a float [x]: true division, which raises
    [ZeroDivisionError] when [x == 0.0]. *)
Definition truediv (n : Z) (x : pyfloat) : result pyfloat :=
  match x with
  | Finite q =>
      if Qeq_bool q 0 then Raise ZeroDivisionError
      else Ok (Finite (Qred (inject_Z n / q)))
  | Inf _ => Ok (Finite 0)
  | NaN => Ok NaN
  end.

End Py.
Export Py.

(* ===================================================================== *)
(** * The part of Python's [re] that client.py uses *)
(* ===================================================================== *)

Module re.

(** Patterns.  Both patterns of client.py repeat single-character classes
    only, so the repetition nodes carry a character set.  [Star] is the
    greedy [X*], [StarLazy] the reluctant [X*?]. *)
Inductive regex :=
| Chr (cs : pychar -> bool)
| Cat (r1 r2 : regex)
| Alt (r1 r2 : regex)
| Star (cs : pychar -> bool)
| StarLazy (cs : pychar -> bool).

(** The lower-case mapping of the engine, on the code points whose lower
    case is an ASCII letter (the only ones an ASCII pattern can meet):
    A-Z, U+0130 and U+212A. *)
Definition lower (c : pychar) : pychar :=
  (if (65 <=? c) && (c <=? 90) then c + 32
   else if c =? 304 then 105
   else if c =? 8490 then 107
   else c)%N.

(** The two extra case equivalences the engine adds for ASCII letters:
    dotless i (U+0131) with [i], long s (U+017F) with [s]. *)
Definition case_fix (l x : pychar) : bool :=
  ((l =? 105) && (x =? 305) || (l =? 115) && (x =? 383))%N.

(** A literal character of the pattern, with and without [re.IGNORECASE]. *)
Definition lit (ignorecase : bool) (c : ascii) : pychar -> bool :=
  fun x =>
    if ignorecase
    then (lower x =? lower (ch c))%N || case_fix (lower (ch c)) x
    else (x =? ch c)%N.

(** The class [[a-zA-Z]]. *)
Definition letter (ignorecase : bool) : pychar -> bool :=
  fun x =>
    let az (y : pychar) := ((97 <=? y) && (y <=? 122))%N in
    if ignorecase
    then az (lower x) || (x =? 305)%N || (x =? 383)%N
    else az x || ((65 <=? x) && (x <=? 90))%N.

(** The class [[\\\/]]: a backslash or a slash. *)
Definition slash (x : pychar) : bool := ((x =? 92) || (x =? 47))%N.

(** The negated class of the first pattern: any character except
    [<], [>], [:], the double quote, [|], [?], the star, LF and CR. *)
Definition path_char (x : pychar) : bool :=
  negb ((x =? 60) || (x =? 62) || (x =? 58) || (x =? 34) || (x =? 124)
        || (x =? 63) || (x =? 42) || (x =? 10) || (x =? 13))%N.

(** [.] (without [re.DOTALL]): anything but a newline. *)
Definition dot (x : pychar) : bool := negb (x =? 10)%N.

(** The engine: all the ways a pattern can match a prefix of [s], each given
    by the unmatched remainder, in the order in which backtracking tries
    them.  The match the engine reports is the first one. *)
Fixpoint greedy (cs : pychar -> bool) (s : pystr) : list pystr :=
  match s with
  | c :: t => if cs c then greedy cs t ++ [s] else [s]
  | [] => [[]]
  end.

Fixpoint reluctant (cs : pychar -> bool) (s : pystr) : list pystr :=
  s :: match s with
       | c :: t => if cs c then reluctant cs t else []
       | [] => []
       end.

Fixpoint run (r : regex) (s : pystr) : list pystr :=
  match r with
  | Chr cs =>
      match s with
      | c :: t => if cs c then [t] else []
      | [] => []
      end
  | Cat r1 r2 => flat_map (run r2) (run r1 s)
  | Alt r1 r2 => run r1 s ++ run r2 s
  | Star cs => greedy cs s
  | StarLazy cs => reluctant cs s
  end.

(** [pattern.match(s)]: the text matched at the start of [s], if any. *)
Definition match_at (r : regex) (s : pystr) : option pystr :=
  match run r s with
  | rest :: _ => Some (take (length s - length rest) s)
  | [] => None
  end.

(** [re.search(pattern, s)]: the first position, from the left, at which the
    pattern matches, with the text matched there. *)
Fixpoint search (r : regex) (s : pystr) : option (nat * pystr) :=
  match match_at r s with
  | Some m => Some (0, m)
  | None =>
      match s with
      | [] => None
      | _ :: t =>
          match search r t with
          | Some (i, m) => Some (S i, m)
          | None => None
          end
      end
  end.

(** [match.group(1)] for a pattern that is one group as a whole. *)
Definition group1 (m : nat * pystr) : pystr := snd m.

(** [re.sub(pattern, repl, s)] for a literal [repl] and a pattern that
    matches no empty string: the non-overlapping matches, leftmost first,
    are replaced.  [skip] counts the characters of the current match still
    to be dropped. *)
Fixpoint sub_skip (r : regex) (repl : pystr) (skip : nat) (s : pystr) : pystr :=
  match s with
  | [] => []
  | c :: t =>
      match skip with
      | S k => sub_skip r repl k t
      | O =>
          match match_at r s with
          | Some (_ :: m') => repl ++ sub_skip r repl (length m') t
          | _ => c :: sub_skip r repl 0 t
          end
      end
  end.

Definition sub (r : regex) (repl : pystr) (s : pystr) : pystr :=
  sub_skip r repl 0 s.

End re.

(* ===================================================================== *)
(** * client.py: path and question extraction *)
(* ===================================================================== *)

Module Client.

Import re.

(** A three-letter extension as a pattern, e.g. [mp4]. *)
Definition ext3 (ic : bool) (a b c : ascii) : regex :=
  Cat (Chr (lit ic a)) (Cat (Chr (lit ic b)) (Chr (lit ic c))).

(** [(?:mp4|avi|mov|mkv|flv)] *)
Definition extensions (ic : bool) : regex :=
  Alt (ext3 ic "m" "p" "4")
 (Alt (ext3 ic "a" "v" "i")
 (Alt (ext3 ic "m" "o" "v")
 (Alt (ext3 ic "m" "k" "v")
      (ext3 ic "f" "l" "v")))).

(** The first pattern of client.py: a letter, a colon, a backslash or
    slash, greedily many [path_char]s, a dot, an extension; the whole is
    group 1.  Compiled with ([ic = true]) or without [re.IGNORECASE]. *)
Definition pattern (ic : bool) : regex :=
  Cat (Chr (letter ic))
 (Cat (Chr (lit ic ":"))
 (Cat (Chr slash)
 (Cat (Star path_char)
 (Cat (Chr (lit ic "."))
      (extensions ic))))).

(** The fallback pattern: a letter, a colon, a backslash, reluctantly many
    non-newline characters, a dot, an extension; the whole is group 1. *)
Definition simple_pattern (ic : bool) : regex :=
  Cat (Chr (letter ic))
 (Cat (Chr (lit ic ":"))
 (Cat (Chr (lit ic "\"))
 (Cat (StarLazy dot)
 (Cat (Chr (lit ic "."))
      (extensions ic))))).

(** client.py, [MCPClient.extract_video_path]; [None] is Python's [None]. *)
Definition extract_video_path (query : pystr) : option pystr :=
  match search (pattern true) query with
  | Some m => Some (group1 m)
  | None =>
      match search (simple_pattern true) query with
      | Some m => Some (group1 m)
      | None => None
      end
  end.

(** The default question, [这段视频的内容是什么？]. *)
Definition default_question : pystr :=
  [36825; 27573; 35270; 39057; 30340; 20869; 23481; 26159; 20160; 20040;
   65311]%N.

(** client.py, [MCPClient.extract_text_question].  The first assignment
    (with [re.IGNORECASE]) is overwritten by the second (without). *)
Definition extract_text_question (query : pystr) : pystr :=
  let text_question := strip (sub (pattern true) [] query) in
  let text_question := strip (sub (pattern false) [] query) in
  match text_question with
  | [] => default_question
  | _ => text_question
  end.

End Client.

(* ===================================================================== *)
(** * server.py: the tool host *)
(* ===================================================================== *)

Module Server.

(** ** Payloads *)

(** The values a tool returns: what a Python [dict] with string keys can
    hold here. *)
Inductive pyvalue :=
| VFloat (x : pyfloat)
| VInt (z : Z)
| VStr (s : pystr)
| VBool (b : bool)
| VList (l : list pyvalue)
| VDict (d : gmap string pyvalue).

Abbreviation payload := (gmap string pyvalue).

(** [str(n)] for an int. *)
Definition str_of_int (z : Z) : pystr :=
  str_of (DecimalString.NilZero.string_of_int (Z.to_int z)).

(** ** The video library (cv2, numpy), by its contract *)

(** A pixel in B, G, R order, and a decoded frame of [height] rows and
    [width] columns, stored row after row. *)
Definition bgr := (Z * Z * Z)%type.

Record frame := {
  height : nat;
  width : nat;
  pixels : list bgr
}.

(** A numpy array holds exactly [height * width] pixels. *)
Definition frame_wf (f : frame) : Prop :=
  length (pixels f) = height f * width f.

(** A single-channel (grayscale or binarised) image. *)
Record gray := {
  gheight : nat;
  gwidth : nat;
  gpixels : list Z
}.

(** What one [cap.read()] can do: deliver the next frame, report that there
    is none ([ret = False]), or raise. *)
Inductive read_outcome :=
| Grabbed (f : frame)
| NoFrame
| ReadError (e : exn).

(** What a video file holds: the properties its container reports and what
    the decoder will deliver. *)
Record video := {
  prop_fps : pyfloat;
  prop_frame_count : pyfloat;
  prop_frame_width : pyfloat;
  prop_frame_height : pyfloat;
  stream : list read_outcome
}.

(** A [cv2.VideoCapture] object.  [opened] is true while it holds the file;
    [pos] counts the frames it has delivered. *)
Record capture := {
  opened : bool;
  source : option video;
  pending : list read_outcome;
  pos : nat
}.

Inductive cap_prop :=
| CAP_PROP_FPS
| CAP_PROP_FRAME_COUNT
| CAP_PROP_FRAME_WIDTH
| CAP_PROP_FRAME_HEIGHT.

Section Library.

(** The files the host can open ([None]: the path cannot be opened), and
    the luminance formula of [cv2.COLOR_BGR2GRAY]. *)
Variable fs : pystr -> option video.
Variable luma : bgr -> Z.

(** What the library makes of a threshold that does not fit a 32-bit C
    [int]: the binding turns the Python [int] into a C double (it raises
    when there is none so large), and the library floors the double to a C
    [int], with a result that C leaves to the build when the double is out
    of the range of [int]. *)
Variable wide_threshold : Z -> result Z.

(** [cv2.VideoCapture(path)]: never raises on a [str]; the object is simply
    not opened when the file cannot be. *)
Definition VideoCapture (path : pystr) : capture :=
  match fs path with
  | Some v => {| opened := true; source := Some v; pending := stream v; pos := 0 |}
  | None => {| opened := false; source := None; pending := []; pos := 0 |}
  end.

Definition isOpened (cap : capture) : bool := opened cap.

(** [cap.get(prop)]: a float; [0.0] when nothing is opened. *)
Definition get (cap : capture) (p : cap_prop) : pyfloat :=
  match opened cap, source cap with
  | true, Some v =>
      match p with
      | CAP_PROP_FPS => prop_fps v
      | CAP_PROP_FRAME_COUNT => prop_frame_count v
      | CAP_PROP_FRAME_WIDTH => prop_frame_width v
      | CAP_PROP_FRAME_HEIGHT => prop_frame_height v
      end
  | _, _ => Finite 0
  end.

(** [cap.read()]: the new state of the capture and [(ret, frame)]. *)
Definition read (cap : capture) : capture * result (option frame) :=
  if opened cap then
    match pending cap with
    | [] => (cap, Ok None)
    | Grabbed f :: rest =>
        ({| opened := true; source := source cap; pending := rest;
            pos := S (pos cap) |}, Ok (Some f))
    | NoFrame :: rest =>
        ({| opened := true; source := source cap; pending := rest;
            pos := pos cap |}, Ok None)
    | ReadError e :: rest =>
        ({| opened := true; source := source cap; pending := rest;
            pos := pos cap |}, Raise e)
    end
  else (cap, Ok None).

(** [cap.release()] *)
Definition release (cap : capture) : capture :=
  {| opened := false; source := source cap; pending := pending cap;
     pos := pos cap |}.

(** [np.mean] of integer samples; numpy gives [nan] for no sample. *)
Definition np_mean (l : list Z) : pyfloat :=
  match l with
  | [] => NaN
  | _ => Finite (Qred (Qmake (fold_right Z.add 0%Z l) 1 / inject_Z (Z.of_nat (length l))))
  end.

(** [np.mean(frame, axis=(0, 1)).tolist()]: the mean of each channel. *)
Definition mean_color (f : frame) : list pyfloat :=
  [ np_mean (List.map (fun p => fst (fst p)) (pixels f));
    np_mean (List.map (fun p => snd (fst p)) (pixels f));
    np_mean (List.map snd (pixels f)) ].

(** [cv2.cvtColor(frame, cv2.COLOR_BGR2GRAY)] *)
Definition cvtColor_BGR2GRAY (f : frame) : gray :=
  {| gheight := height f; gwidth := width f;
     gpixels := List.map luma (pixels f) |}.

(** The C [int] an 8-bit image is compared with when [cv2.threshold] is
    given the Python [int] [thresh]: [thresh] itself when it fits 32 bits. *)
Definition int_threshold (thresh : Z) : result Z :=
  if ((- 2 ^ 31 <=? thresh) && (thresh <? 2 ^ 31))%Z then Ok thresh
  else wide_threshold thresh.

(** [cv2.threshold(src, thresh, maxval, cv2.THRESH_BINARY)[1]] on an 8-bit
    image: [maxval] where the source is above the threshold, 0 elsewhere;
    it raises when the threshold cannot be converted. *)
Definition threshold_BINARY (src : gray) (thresh maxval : Z) : result gray :=
  match int_threshold thresh with
  | Raise e => Raise e
  | Ok t =>
      Ok {| gheight := gheight src; gwidth := gwidth src;
            gpixels := List.map (fun p => if (t <? p)%Z then maxval else 0%Z)
                                (gpixels src) |}
  end.

(** [int(np.sum(img == v))] *)
Definition count_eq (img : gray) (v : Z) : Z :=
  Z.of_nat (length (List.filter (fun p => (p =? v)%Z) (gpixels img))).

(** ** The two analyses *)

(** [try: body finally: cap.release()] *)
Definition try_finally_release {A} (body : capture -> capture * result A)
    (cap : capture) : capture * result A :=
  let (cap', r) := body cap in (release cap', r).

(** The frame loop of [video_inference_model].  [n] bounds the frames still
    to come (the caller passes the length of what is pending), so that the
    last branch is never taken. *)
Fixpoint inference_loop (n : nat) (color_analysis : list (list pyfloat))
    (cap : capture) : capture * result (list (list pyfloat)) :=
  match read cap with
  | (cap', Raise e) => (cap', Raise e)
  | (cap', Ok None) => (cap', Ok color_analysis)
  | (cap', Ok (Some frame)) =>
      let avg_color := mean_color frame in
      match n with
      | S n' => inference_loop n' (color_analysis ++ [avg_color]) cap'
      | O => (cap', Ok (color_analysis ++ [avg_color]))
      end
  end.

Definition error_payload : payload :=
  {[ "error" := VStr [26080; 27861; 25171; 24320; 35270; 39057; 25991; 20214]%N ]}.

(** server.py, [video_inference_model].  The result is paired with the
    capture as the call leaves it. *)
Definition video_inference_model (video_path : pystr)
    : capture * result payload :=
  let cap := VideoCapture video_path in
  if negb (isOpened cap) then (cap, Ok error_payload)
  else
    let fps := get cap CAP_PROP_FPS in
    match int_of_float (get cap CAP_PROP_FRAME_COUNT) with
    | Raise e => (cap, Raise e)
    | Ok frame_count =>
        match truediv frame_count fps with
        | Raise e => (cap, Raise e)
        | Ok duration =>
            match try_finally_release
                    (inference_loop (length (pending cap)) []) cap with
            | (cap', Raise e) => (cap', Raise e)
            | (cap', Ok color_analysis) =>
                (cap', Ok (<[ "fps" := VFloat fps ]>
                          (<[ "frame_count" := VInt frame_count ]>
                          (<[ "duration" := VFloat duration ]>
                          {[ "color_analysis" :=
                               VList (List.map (fun c => VList (List.map VFloat c))
                                               color_analysis) ]}))))
            end
        end
    end.

(** The per-frame statistics gathered by [video_binarization]. *)
Record binary_stats := {
  white_pixel_counts : list Z;
  black_pixel_counts : list Z;
  frame_brightness : list pyfloat
}.

(** The frame loop of [video_binarization]; [n] as in [inference_loop].
    Of the calls made on a frame only [cv2.threshold] can raise: the frame
    comes from [cap.read] as a three-channel 8-bit array, on which
    [cvtColor], the comparisons, [np.sum] and [np.mean] are defined. *)
Fixpoint binarization_loop (threshold : Z) (n : nat) (st : binary_stats)
    (processed_frames : nat) (cap : capture)
    : capture * result (binary_stats * nat) :=
  match read cap with
  | (cap', Raise e) => (cap', Raise e)
  | (cap', Ok None) => (cap', Ok (st, processed_frames))
  | (cap', Ok (Some frame)) =>
      let gray_frame := cvtColor_BGR2GRAY frame in
      match threshold_BINARY gray_frame threshold 255 with
      | Raise e => (cap', Raise e)
      | Ok binary_frame =>
          let white_pixels := count_eq binary_frame 255 in
          let black_pixels := count_eq binary_frame 0 in
          let avg_brightness := np_mean (gpixels gray_frame) in
          let st' :=
            {| white_pixel_counts := white_pixel_counts st ++ [white_pixels];
               black_pixel_counts := black_pixel_counts st ++ [black_pixels];
               frame_brightness := frame_brightness st ++ [avg_brightness] |} in
          match n with
          | S n' => binarization_loop threshold n' st' (S processed_frames) cap'
          | O => (cap', Ok (st', S processed_frames))
          end
      end
  end.

Definition stats_value (st : binary_stats) : pyvalue :=
  VDict (<[ "white_pixel_counts" := VList (List.map VInt (white_pixel_counts st)) ]>
        (<[ "black_pixel_counts" := VList (List.map VInt (black_pixel_counts st)) ]>
        {[ "frame_brightness" := VList (List.map VFloat (frame_brightness st)) ]})).

Definition note_text : pystr :=
  [20108; 20540; 21270; 22788; 29702; 23436; 25104; 65292; 26410; 20445;
   23384; 21040; 26412; 22320; 25991; 20214]%N.

(** server.py, [video_binarization]. *)
Definition video_binarization (video_path : pystr) (threshold : Z)
    : capture * result payload :=
  let cap := VideoCapture video_path in
  if negb (isOpened cap) then (cap, Ok error_payload)
  else
    let fps := get cap CAP_PROP_FPS in
    match int_of_float (get cap CAP_PROP_FRAME_COUNT) with
    | Raise e => (cap, Raise e)
    | Ok frame_count =>
    match int_of_float (get cap CAP_PROP_FRAME_WIDTH) with
    | Raise e => (cap, Raise e)
    | Ok width =>
    match int_of_float (get cap CAP_PROP_FRAME_HEIGHT) with
    | Raise e => (cap, Raise e)
    | Ok height =>
    match truediv frame_count fps with
    | Raise e => (cap, Raise e)
    | Ok duration =>
        let binary_stats0 :=
          {| white_pixel_counts := []; black_pixel_counts := [];
             frame_brightness := [] |} in
        match try_finally_release
                (binarization_loop threshold (length (pending cap))
                                   binary_stats0 0) cap with
        | (cap', Raise e) => (cap', Raise e)
        | (cap', Ok (binary_stats, _)) =>
            (cap', Ok (<[ "fps" := VFloat fps ]>
                      (<[ "frame_count" := VInt frame_count ]>
                      (<[ "duration" := VFloat duration ]>
                      (<[ "resolution" :=
                            VStr (str_of_int width ++ str_of "x" ++ str_of_int height) ]>
                      (<[ "binary_statistics" := stats_value binary_stats ]>
                      (<[ "success" := VBool true ]>
                      {[ "note" := VStr note_text ]})))))))
        end
    end end end end.

(** The two published tools. *)
Definition inference_video (path : pystr) : capture * result payload :=
  video_inference_model path.

Definition process_video_binarization (path : pystr) (threshold : Z)
    : capture * result payload :=
  video_binarization path threshold.

End Library.

(** server.py's own pattern: a letter, a colon, a backslash, greedily many
    path characters, a dot, an extension (here a second group); compiled
    without flags. *)
Definition pattern : re.regex :=
  re.Cat (re.Chr (re.letter false))
 (re.Cat (re.Chr (re.lit false ":"))
 (re.Cat (re.Chr (re.lit false "\"))
 (re.Cat (re.Star re.path_char)
 (re.Cat (re.Chr (re.lit false "."))
         (Client.extensions false))))).

(** server.py, [extract_video_path]. *)
Definition extract_video_path (query : pystr) : option pystr :=
  match re.search pattern query with
  | Some m => Some (re.group1 m)
  | None => None
  end.

(** Reading a payload back. *)
Definition lookup_list (d : payload) (k : string) : option (list pyvalue) :=
  match d !! k with
  | Some (VList l) => Some l
  | _ => None
  end.

Definition lookup_stats (d : payload) (k : string) : option (list pyvalue) :=
  match d !! "binary_statistics" with
  | Some (VDict st) => lookup_list st k
  | _ => None
  end.

End Server.

(* ===================================================================== *)
(** * client.py: the orchestrator *)
(* ===================================================================== *)

Module Orchestrator.

Import Client.

(** ** Data exchanged with the outside *)

(** What [json.loads] returns. *)
Inductive json :=
| JNull
| JBool (b : bool)
| JInt (z : Z)
| JFloat (x : pyfloat)
| JStr (s : pystr)
| JArr (l : list json)
| JObj (d : gmap pystr json).

(** A tool as the session lists it, and as it is offered to the gateway. *)
Record tool := {
  name : pystr;
  description : pystr;
  inputSchema : json
}.

(** One conversation turn. *)
Inductive message :=
| UserText (content : pystr)
| UserVideo (video_url : pystr) (text : pystr)
| AssistantDump (content : option pystr) (calls : option (list (pystr * pystr * pystr)))
| ToolTurn (content : pystr) (tool_call_id : pystr).

(** The gateway's reply. *)
Record tool_call := {
  id : pystr;
  function_name : pystr;
  function_arguments : pystr
}.

Record assistant_message := {
  content : option pystr;
  tool_calls : option (list tool_call)
}.

Record choice := {
  finish_reason : pystr;
  message_ : assistant_message
}.

Record response := {
  choices : list choice
}.

(** What [session.call_tool] returns: a list of content items, of which
    only the text ones have a [.text]. *)
Inductive content_item :=
| TextContent (text : pystr)
| OtherContent.

Record call_result := {
  result_content : list content_item
}.

(** What the client prints. *)
Inductive printed :=
| PBanner
| PToolDescription (available_tools : list tool)
| PCalling (tool_name : pystr) (tool_args : json)
| PAnswer (response : option pystr)
| PError (e : exn).

(** What the client does to the outside, in the order it does it. *)
Inductive event :=
| EvListTools
| EvGateway (messages : list message) (tools : option (list tool))
| EvToolCall (tool_name : pystr) (arguments : json)
| EvOpen (path : pystr)
| EvInput
| EvPrint (p : printed).

(** The outside: the tool session, the gateway, the file system and the
    console, each a transition of some world state; and the library
    functions whose result is not fixed here. *)
Record Env := {
  W : Type;
  session_list_tools : W -> W * result (list tool);
  completions_create : list message -> option (list tool) -> W -> W * result response;
  session_call_tool : pystr -> json -> W -> W * result call_result;
  read_file : pystr -> W -> W * result (list N);
  console_input : W -> W * result pystr;
  json_loads : pystr -> result json;
  b64encode : list N -> pystr;
  format_value : option json -> pystr
}.

Section WithEnv.

Variable E : Env.

(** ** State and exceptions *)

Record state := {
  world : W E;
  log : list event   (* newest first *)
}.

Definition M (A : Type) : Type := state -> state * result A.

Definition ret {A} (a : A) : M A := fun s => (s, Ok a).

Definition raise {A} (e : exn) : M A := fun s => (s, Raise e).

Definition bind {A B} (m : M A) (k : A -> M B) : M B :=
  fun s =>
    match m s with
    | (s', Ok a) => k a s'
    | (s', Raise e) => (s', Raise e)
    end.

Notation "x <- m ;; k" := (bind m (fun x => k))
  (at level 100, m at next level, right associativity).
Notation "m ;;; k" := (bind m (fun _ => k))
  (at level 100, right associativity).

Definition lift {A} (r : result A) : M A := fun s => (s, r).

Definition emit (ev : event) : M unit :=
  fun s => ({| world := world s; log := ev :: log s |}, Ok tt).

Definition external {A} (f : W E -> W E * result A) : M A :=
  fun s => let (w', r) := f (world s) in ({| world := w'; log := log s |}, r).

(** [try: body except Exception as e: handler(e)] *)
Definition try_except {A} (body : M A) (handler : exn -> M A) : M A :=
  fun s =>
    match body s with
    | (s', Ok a) => (s', Ok a)
    | (s', Raise e) => if is_Exception e then handler e s' else (s', Raise e)
    end.

(** ** The calls to the outside *)

Definition list_tools : M (list tool) :=
  emit EvListTools ;;; external (session_list_tools E).

Definition create (messages : list message) (tools : option (list tool))
    : M response :=
  emit (EvGateway messages tools) ;;; external (completions_create E messages tools).

Definition call_tool (tool_name : pystr) (arguments : json) : M call_result :=
  emit (EvToolCall tool_name arguments) ;;;
  external (session_call_tool E tool_name arguments).

(** [print(...)], on a standard output that takes what is written to it:
    a closed or narrowly encoded output, on which [print] itself raises,
    is outside this model. *)
Definition print (p : printed) : M unit := emit (EvPrint p).

Definition input : M pystr := emit EvInput ;;; external (console_input E).

(** client.py, [MCPClient.encode_image]: [open(None, "rb")] is a
    [TypeError] before any file is touched. *)
Definition encode_image (image_path : option pystr) : M pystr :=
  match image_path with
  | None => raise TypeError
  | Some p =>
      emit (EvOpen p) ;;;
      bytes <- external (read_file E p) ;;
      ret (b64encode E bytes)
  end.

(** ** Small Python operations *)

(** [l[0]] on a list. *)
Definition item0 {A} (l : list A) : M A :=
  match l with
  | x :: _ => ret x
  | [] => raise IndexError
  end.

(** [l[0]] on something that may be [None]. *)
Definition item0_opt {A} (l : option (list A)) : M A :=
  match l with
  | Some l => item0 l
  | None => raise TypeError
  end.

(** [item.text] *)
Definition text_of (item : content_item) : M pystr :=
  match item with
  | TextContent t => ret t
  | OtherContent => raise AttributeError
  end.

(** [d.get(key)] and [d.get(key, default)]: an [AttributeError] on what is
    not a dict. *)
Definition dict_get (d : json) (key : string) : M (option json) :=
  match d with
  | JObj m => ret (m !! str_of key)
  | _ => raise AttributeError
  end.

Definition dict_get_default (d : json) (key : string) (default : json) : M json :=
  match d with
  | JObj m => ret (match m !! str_of key with Some v => v | None => default end)
  | _ => raise AttributeError
  end.

(** A path that may be [None], as a JSON argument. *)
Definition path_json (video_path : option pystr) : json :=
  match video_path with
  | Some p => JStr p
  | None => JNull
  end.

(** [json.loads(r.content[0].text) if r.content else {}] *)
Definition params_of (r : call_result) : M json :=
  match result_content r with
  | [] => ret (JObj ∅)
  | item :: _ => text <- text_of item ;; lift (json_loads E text)
  end.

Definition data_url (base_video : pystr) : pystr :=
  str_of "data:video/mp4;base64," ++ base_video.

Definition model_dump (m : assistant_message) : message :=
  AssistantDump (content m)
    (option_map (List.map (fun c => (id c, function_name c, function_arguments c)))
                (tool_calls m)).

(** ** process_query *)

(** The branch for [tool_name == "inference_video"]. *)
Definition enrich_inference (query : pystr) (messages : list message)
    : M (list message) :=
  let text_question := extract_text_question query in
  let video_path := extract_video_path query in
  base_video <- encode_image video_path ;;
  video_result <- call_tool (str_of "inference_video")
                    (JObj {[ str_of "path" := path_json video_path ]}) ;;
  video_params <- params_of video_result ;;
  fps <- dict_get video_params "fps" ;;
  duration <- dict_get video_params "duration" ;;
  frame_count <- dict_get video_params "frame_count" ;;
  let video_info :=
    [35270; 39057; 20449; 24687; 65306]%N ++ str_of "FPS=" ++ format_value E fps
    ++ str_of ", " ++ [26102; 38271]%N ++ str_of "=" ++ format_value E duration
    ++ [31186]%N ++ str_of ", " ++ [24635; 24103; 25968]%N ++ str_of "="
    ++ format_value E frame_count in
  ret (messages ++
       [UserVideo (data_url base_video) (text_question ++ [10%N] ++ video_info)]).

(** The branch for [tool_name == "process_video_binarization"]. *)
Definition enrich_binarization (query : pystr) (tool_args : json)
    (messages : list message) : M (list message) :=
  let text_question := extract_text_question query in
  let video_path := extract_video_path query in
  threshold <- dict_get_default tool_args "threshold" (JInt 127) ;;
  base_video <- encode_image video_path ;;
  binary_result <- call_tool (str_of "process_video_binarization")
                     (JObj (<[ str_of "path" := path_json video_path ]>
                            {[ str_of "threshold" := threshold ]})) ;;
  binary_params <- params_of binary_result ;;
  fps <- dict_get binary_params "fps" ;;
  duration <- dict_get binary_params "duration" ;;
  frame_count <- dict_get binary_params "frame_count" ;;
  resolution <- dict_get binary_params "resolution" ;;
  let binary_info :=
    [35270; 39057; 20449; 24687; 65306]%N ++ str_of "FPS=" ++ format_value E fps
    ++ str_of ", " ++ [26102; 38271]%N ++ str_of "=" ++ format_value E duration
    ++ [31186]%N ++ str_of "," ++ [24635; 24103; 25968]%N ++ str_of "="
    ++ format_value E frame_count
    ++ str_of "," ++ [20998; 36776; 29575]%N ++ str_of "="
    ++ format_value E resolution in
  ret (messages ++
       [UserVideo (data_url base_video) (text_question ++ [10%N] ++ binary_info)]).

(** The body of [if content.finish_reason == "tool_calls":] in
    [process_query], from the two name tests on: the enrichment branches,
    the call with the model's own arguments, and the second gateway call. *)
Definition handle_tool_call (query : pystr) (messages : list message)
    (content_ : choice) (tool_call : tool_call) (tool_args : json)
    : M (option pystr) :=
  let tool_name := function_name tool_call in
  messages <- (if streq tool_name (str_of "inference_video")
               then enrich_inference query messages
               else ret messages) ;;
  messages <- (if streq tool_name (str_of "process_video_binarization")
               then enrich_binarization query tool_args messages
               else ret messages) ;;
  result_ <- call_tool tool_name tool_args ;;
  print (PCalling tool_name tool_args) ;;;
  let messages := messages ++ [model_dump (message_ content_)] in
  item <- item0 (result_content result_) ;;
  text <- text_of item ;;
  let messages := messages ++ [ToolTurn text (id tool_call)] in
  response <- create messages None ;;
  final <- item0 (choices response) ;;
  ret (content (message_ final)).

(** client.py, [MCPClient.process_query]. *)
Definition process_query (query : pystr) : M (option pystr) :=
  let messages := [UserText query] in
  response <- list_tools ;;
  let available_tools := response in
  print (PToolDescription available_tools) ;;;
  response <- create messages (Some available_tools) ;;
  content_ <- item0 (choices response) ;;
  if streq (finish_reason content_) (str_of "tool_calls") then
    tool_call <- item0_opt (tool_calls (message_ content_)) ;;
    tool_args <- lift (json_loads E (function_arguments tool_call)) ;;
    handle_tool_call query messages content_ tool_call tool_args
  else
    ret (content (message_ content_)).

(** ** chat_loop *)

(** [query.lower() == 'quit']: only the ASCII spellings lower to it. *)
Definition ascii_lower (c : pychar) : pychar :=
  (if (65 <=? c) && (c <=? 90) then c + 32 else c)%N.

Definition is_quit (query : pystr) : bool :=
  streq (List.map ascii_lower query) (str_of "quit").

(** One round of the [while True] of [chat_loop]: [true] when the loop
    goes on, [false] on [break]. *)
Definition chat_round : M bool :=
  try_except
    (line <- input ;;
     let query := strip line in
     if is_quit query then ret false
     else
       response <- process_query query ;;
       print (PAnswer response) ;;;
       ret true)
    (fun e => print (PError e) ;;; ret true).

(** [while True: body], run for at most [rounds] rounds; the result tells
    whether the loop has ended ([true], on [break]) or is still running. *)
Fixpoint while_True (rounds : nat) (body : M bool) : M bool :=
  match rounds with
  | O => ret false
  | S n =>
      go_on <- body ;;
      if go_on then while_True n body else ret true
  end.

(** client.py, [MCPClient.chat_loop]: the banner, printed once before the
    [try], then the rounds. *)
Definition chat_loop (rounds : nat) : M bool :=
  print PBanner ;;;
  while_True rounds chat_round.

End WithEnv.

Arguments ret {E A} a.
Arguments world {E} s.
Arguments log {E} s.

(** ** Reading a log *)

Definition is_tool_call (ev : event) : bool :=
  match ev with EvToolCall _ _ => true | _ => false end.

Definition is_gateway (ev : event) : bool :=
  match ev with EvGateway _ _ => true | _ => false end.

(** The events of a run in the order they happened. *)
Definition trace {E} (s : state E) : list event := rev (log s).

Definition tool_invocations (t : list event) : nat :=
  length (List.filter is_tool_call t).

Definition gateway_calls (t : list event) : nat :=
  length (List.filter is_gateway t).

(** The events that precede the [n]-th gateway call (counted from 1); the
    whole trace when there is no such call. *)
Fixpoint before_gateway (n : nat) (t : list event) : list event :=
  match t with
  | [] => []
  | ev :: rest =>
      if is_gateway ev then
        match n with
        | 0 | 1 => []
        | S n' => ev :: before_gateway n' rest
        end
      else ev :: before_gateway n rest
  end.

Definition start {E} (w : W E) : state E := {| world := w; log := [] |}.

End Orchestrator.

(* ===================================================================== *)
(** * client.py: start-up *)
(* ===================================================================== *)

Module Startup.

(** [s.startswith(prefix)] and [s.endswith(suffix)] *)
Fixpoint startswith (s prefix : pystr) : bool :=
  match prefix, s with
  | [], _ => true
  | p :: prefix', c :: s' => (c =? p)%N && startswith s' prefix'
  | _ :: _, [] => false
  end.

Definition endswith (s suffix : pystr) : bool :=
  startswith (rev s) (rev suffix).

(** client.py, [MCPClient.connect_to_server], up to the choice of the
    command: the script path is checked before anything is started. *)
Definition server_command (server_script_path : pystr) : result pystr :=
  let is_python := endswith server_script_path (str_of ".py") in
  let is_js := endswith server_script_path (str_of ".js") in
  if negb is_python && negb is_js then Raise ValueError
  else Ok (if is_python then str_of "python" else str_of "node").

(** What [MCPClient.__init__] reads from the environment (after
    [load_dotenv]) and keeps. *)
Record client_config := {
  openai_api_key : pystr;
  base_url : option pystr;
  model : option pystr
}.

(** [os.getenv(name)] *)
Definition getenv (environ : gmap string pystr) (name : string) : option pystr :=
  environ !! name.

(** client.py, [MCPClient.__init__]: [if not self.openai_api_key] holds
    for a missing key and for an empty one; [OpenAI] is the constructor of
    the gateway client, given by what it does with [api_key] and
    [base_url]. *)
Definition init (environ : gmap string pystr)
    (OpenAI : pystr -> option pystr -> result unit) : result client_config :=
  let key := getenv environ "OPENAI_API_KEY" in
  let base := getenv environ "BASE_URL" in
  let mdl := getenv environ "MODEL" in
  match key with
  | None => Raise ValueError
  | Some [] => Raise ValueError
  | Some k =>
      match OpenAI k base with
      | Raise e => Raise e
      | Ok _ => Ok {| openai_api_key := k; base_url := base; model := mdl |}
      end
  end.

(** What [main] does, step by step, and how it ends. *)
Inductive startup_event :=
| Usage
| Constructed
| Spawn (command script : pystr)
| Chat
| Cleanup.

Inductive ending :=
| Returned
| Exited (code : Z)
| Raised (e : exn).

Definition ending_of (r : result unit) : ending :=
  match r with
  | Ok _ => Returned
  | Raise e => Raised e
  end.

(** client.py, [main].  [argv] is [sys.argv]; the constructor of the
    gateway client and the outcomes of the session set-up inside
    [connect_to_server], of [chat_loop] and of [cleanup] are given. *)
Definition main (argv : list pystr) (environ : gmap string pystr)
    (OpenAI : pystr -> option pystr -> result unit)
    (session chat cleanup : result unit) : list startup_event * ending :=
  match argv with
  | _ :: script :: _ =>
      match init environ OpenAI with
      | Raise e => ([], Raised e)
      | Ok _ =>
          let (evs, body) :=
            match server_command script with
            | Raise e => ([], Raise e)
            | Ok command =>
                match session with
                | Raise e => ([Spawn command script], Raise e)
                | Ok _ => ([Spawn command script; Chat], chat)
                end
            end in
          (Constructed :: evs ++ [Cleanup],
           match cleanup with
           | Raise e => Raised e
           | Ok _ => ending_of body
           end)
      end
  | _ => ([Usage], Exited 1)
  end.

End Startup.

(* ===================================================================== *)
(** * Specification vocabulary *)
(* ===================================================================== *)

Module Spec.

Import re.

(** The language of a pattern: which texts it can match as a whole. *)
Inductive matches : regex -> pystr -> Prop :=
| matches_chr cs c : cs c = true -> matches (Chr cs) [c]
| matches_cat r1 r2 w1 w2 :
    matches r1 w1 -> matches r2 w2 -> matches (Cat r1 r2) (w1 ++ w2)
| matches_alt_l r1 r2 w : matches r1 w -> matches (Alt r1 r2) w
| matches_alt_r r1 r2 w : matches r2 w -> matches (Alt r1 r2) w
| matches_star cs w : forallb cs w = true -> matches (Star cs) w
| matches_lazy cs w : forallb cs w = true -> matches (StarLazy cs) w.

(** ** Video paths, in the spec's words *)

(** The fixed set of video extensions. *)
Definition video_extensions : list string :=
  ["mp4"; "avi"; "mov"; "mkv"; "flv"]%string.

(** [e] spells [name]; with [ic], letter case apart (as the engine compares
    characters under [re.IGNORECASE]). *)
Fixpoint spells (ic : bool) (name : string) (e : pystr) : bool :=
  match name, e with
  | EmptyString, [] => true
  | String c name', x :: e' => lit ic c x && spells ic name' e'
  | _, _ => false
  end.

Definition is_video_ext (ic : bool) (e : pystr) : bool :=
  existsb (fun name => spells ic name e) video_extensions.

(** A drive-letter-prefixed path ending in a video extension: a letter, a
    colon, a backslash or slash, characters that are legal in a path, a dot
    and the extension. *)
Definition strict_path (ic : bool) (p : pystr) : Prop :=
  exists d sep body e,
    p = d :: ch ":" :: sep :: body ++ ch "." :: e /\
    letter ic d = true /\ slash sep = true /\
    forallb path_char body = true /\ is_video_ext ic e = true.

(** The looser shape: a backslash after the colon, then anything on one
    line up to the dot and the extension. *)
Definition loose_path (ic : bool) (p : pystr) : Prop :=
  exists d body e,
    p = d :: ch ":" :: ch "\" :: body ++ ch "." :: e /\
    letter ic d = true /\ forallb dot body = true /\ is_video_ext ic e = true.

(** [p], of shape [P], is the part of [q] that starts at offset [i]. *)
Definition occurs_at (P : pystr -> Prop) (q : pystr) (i : nat) (p : pystr) : Prop :=
  P p /\ exists pre post, q = pre ++ p ++ post /\ length pre = i.

(** ** The tool host: vocabulary *)

Import Server.

(** The frames a capture delivers before its first failed or raising
    read: the frames the loops actually read. *)
Fixpoint grabbed (l : list read_outcome) : list frame :=
  match l with
  | Grabbed f :: rest => f :: grabbed rest
  | _ => []
  end.

(** The first read that raises, if the loop meets one. *)
Fixpoint first_error (l : list read_outcome) : option exn :=
  match l with
  | Grabbed _ :: rest => first_error rest
  | ReadError e :: _ => Some e
  | _ => None
  end.

(** The statistics of one frame: the pixels brighter than the threshold
    are white, all others black. *)
Definition white_of (luma : bgr -> Z) (threshold : Z) (f : frame) : Z :=
  Z.of_nat (length (List.filter (fun p => (threshold <? luma p)%Z) (pixels f))).

Definition black_of (luma : bgr -> Z) (threshold : Z) (f : frame) : Z :=
  Z.of_nat (length (List.filter (fun p => (luma p <=? threshold)%Z) (pixels f))).

(** The threshold the frames are compared with, when there is one. *)
Definition threshold_used (r : result Z) : Z :=
  match r with
  | Ok t => t
  | Raise _ => 0
  end.

Definition brightness_of (luma : bgr -> Z) (f : frame) : pyfloat :=
  np_mean (gpixels (cvtColor_BGR2GRAY luma f)).

(** The handle is held when the call is left. *)
Definition leaked (c : capture) : Prop := opened c = true.

(** ** A small concrete host, for examples *)

Module DemoHost.

(** A luminance formula in the style of BT.601, in integers. *)
Definition luma (p : bgr) : Z :=
  let '(b, g, r) := p in ((114 * b + 587 * g + 299 * r + 500) / 1000)%Z.

Definition frame1 : frame :=
  {| height := 2; width := 2;
     pixels := [(0, 0, 0); (255, 255, 255); (10, 200, 30); (90, 90, 90)]%Z |}.

Definition frame2 : frame :=
  {| height := 2; width := 2;
     pixels := [(255, 0, 0); (0, 255, 0); (0, 0, 255); (128, 128, 128)]%Z |}.

Definition clip : video :=
  {| prop_fps := Finite 30; prop_frame_count := Finite 2;
     prop_frame_width := Finite 2; prop_frame_height := Finite 2;
     stream := [Grabbed frame1; Grabbed frame2] |}.

(** A clip whose container reports 0 frames per second. *)
Definition zero_fps_clip : video :=
  {| prop_fps := Finite 0; prop_frame_count := Finite 2;
     prop_frame_width := Finite 2; prop_frame_height := Finite 2;
     stream := [Grabbed frame1; Grabbed frame2] |}.

(** A clip whose second read raises. *)
Definition broken_clip : video :=
  {| prop_fps := Finite 25; prop_frame_count := Finite 3;
     prop_frame_width := Finite 2; prop_frame_height := Finite 2;
     stream := [Grabbed frame1; ReadError CvError; Grabbed frame2] |}.

(** Thresholds beyond 32 bits, as a build for x86 treats them: an [int]
    that no C double holds is refused by the binding, any other becomes
    the smallest C [int], so that every pixel comes out white. *)
Definition wide_threshold (thresh : Z) : result Z :=
  if (Z.abs thresh <? 2 ^ 1024 - 2 ^ 970)%Z then Ok (- 2 ^ 31)%Z
  else Raise CvError.

Definition fs (path : pystr) : option video :=
  if streq path (str_of "C:\clips\a.mp4") then Some clip
  else if streq path (str_of "C:\clips\zero.mp4") then Some zero_fps_clip
  else if streq path (str_of "C:\clips\broken.mp4") then Some broken_clip
  else None.

End DemoHost.

(** The payload of a call that returned, the empty one otherwise. *)
Definition payload_of (r : result payload) : payload :=
  match r with
  | Ok d => d
  | Raise _ => ∅
  end.

(** ** The orchestrator: vocabulary *)

Import Orchestrator.

(** The two tool names [process_query] treats specially. *)
Definition is_video_tool (tool_name : pystr) : bool :=
  streq tool_name (str_of "inference_video")
  || streq tool_name (str_of "process_video_binarization").

(** The tool every invocation of a trace names. *)
Definition invokes_only (tool_name : pystr) (t : list event) : Prop :=
  Forall (fun ev => match ev with
                    | EvToolCall n _ => n = tool_name
                    | _ => True
                    end) t.

(** ** A small concrete outside, for examples *)

Module DemoEnv.

Definition tools : list tool :=
  [ {| name := str_of "inference_video"; description := str_of "video inference";
       inputSchema := JObj ∅ |};
    {| name := str_of "process_video_binarization";
       description := str_of "binarization statistics"; inputSchema := JObj ∅ |} ].

(** The gateway's first reply: it selects [tool_name] with the argument
    text [arguments]. *)
Definition the_call (tool_name arguments : pystr) : tool_call :=
  {| id := str_of "call_1"; function_name := tool_name;
     function_arguments := arguments |}.

Definition the_choice (tool_name arguments : pystr) : choice :=
  {| finish_reason := str_of "tool_calls";
     message_ := {| content := None;
                    tool_calls := Some [the_call tool_name arguments] |} |}.

Definition selects (tool_name arguments : pystr) : response :=
  {| choices := [the_choice tool_name arguments] |}.

Definition final_answer : response :=
  {| choices :=
       [ {| finish_reason := str_of "stop";
            message_ := {| content := Some (str_of "done"); tool_calls := None |} |} ] |}.

(** A text between double quotes. *)
Definition quoted (s : string) : pystr := [34%N] ++ str_of s ++ [34%N].

(** An argument text of the examples: the object with a threshold of
    200, its key between double quotes as JSON wants it. *)
Definition threshold_200 : pystr :=
  str_of "{" ++ quoted "threshold" ++ str_of ": 200}".

(** [json.loads] on the texts the examples hand to it: the empty object,
    the empty array and the object with a threshold.  The one other text
    of the examples breaks off after an unquoted key and is not JSON. *)
Definition loads (s : pystr) : result json :=
  if streq s (str_of "{}") then Ok (JObj ∅)
  else if streq s (str_of "[]") then Ok (JArr [])
  else if streq s threshold_200
       then Ok (JObj {[ str_of "threshold" := JInt 200 ]})
  else Raise JSONDecodeError.

(** The world is the list of console lines still to be typed.  The gateway
    answers a request that offers tools with [first], any other with
    [final_answer]; every tool call returns the text of an empty object;
    every file can be read. *)
Definition env (first : response) : Env :=
  {| W := list pystr;
     session_list_tools := fun w => (w, Ok tools);
     completions_create := fun _ offered w =>
       (w, Ok (match offered with Some _ => first | None => final_answer end));
     session_call_tool := fun _ _ w =>
       (w, Ok {| result_content := [TextContent (str_of "{}")] |});
     read_file := fun _ w => (w, Ok [1; 2; 3]%N);
     console_input := fun w =>
       match w with
       | line :: rest => (rest, Ok line)
       | [] => ([], Raise EOFError)
       end;
     json_loads := loads;
     b64encode := fun _ => str_of "AQID";
     format_value := fun _ => str_of "None" |}.

(** An outside whose console is interrupted. *)
Definition interrupted : Env :=
  {| W := unit;
     session_list_tools := fun w => (w, Ok tools);
     completions_create := fun _ _ w => (w, Ok final_answer);
     session_call_tool := fun _ _ w =>
       (w, Ok {| result_content := [TextContent (str_of "{}")] |});
     read_file := fun _ w => (w, Ok [1; 2; 3]%N);
     console_input := fun w => (w, Raise KeyboardInterrupt);
     json_loads := loads;
     b64encode := fun _ => str_of "AQID";
     format_value := fun _ => str_of "None" |}.

End DemoEnv.

(** ** What a computation appends to the log *)

(** [m] appends to the log a segment (given oldest first) that, with the
    result, satisfies [P]. *)
Definition spec {E A} (m : M E A) (P : list event -> result A -> Prop) : Prop :=
  forall s, exists evs,
    log (fst (m s)) = rev evs ++ log s /\ P evs (snd (m s)).

(** [m] only appends to the log. *)
Definition grows {E A} (m : M E A) : Prop := spec m (fun _ _ => True).

(** A segment without gateway call, whose tool invocations all name
    [tool_name]: at most [k] of them, and exactly [k] when the computation
    returns. *)
Definition quiet (tool_name : pystr) (k : nat) {A}
    (evs : list event) (r : result A) : Prop :=
  gateway_calls evs = 0 /\
  invokes_only tool_name evs /\
  tool_invocations evs <= k /\
  (forall a, r = Ok a -> tool_invocations evs = k).

Definition tool_step {E A} (tool_name : pystr) (k : nat) (m : M E A) : Prop :=
  spec m (quiet tool_name k).

(** A segment that is a quiet part [mid] followed either by nothing (an
    exception ended it) or, after exactly [k] invocations, by the gateway
    call that offers no tools. *)
Definition handled (tool_name : pystr) (k : nat) {A}
    (evs : list event) (r : result A) : Prop :=
  exists mid tail,
    evs = mid ++ tail /\
    gateway_calls mid = 0 /\
    invokes_only tool_name mid /\
    tool_invocations mid <= k /\
    ((exists e, r = Raise e) /\ tail = [] \/
     tool_invocations mid = k /\ exists msgs, tail = [EvGateway msgs None]).

(** ** Which invocations a query causes *)

(** The Tool Host invocations of a trace, in order. *)
Definition invocations (t : list event) : list event :=
  List.filter is_tool_call t.







(** ** More vocabulary for the extraction functions *)

(** The shape server.py looks for: as [strict_path] without letter-case
    folding, and with a backslash only after the colon. *)
Definition backslash_path (p : pystr) : Prop :=
  exists d body e,
    p = d :: ch ":" :: ch "\" :: body ++ ch "." :: e /\
    letter false d = true /\
    forallb path_char body = true /\ is_video_ext false e = true.

(** A text with no whitespace at either end. *)
Definition trimmed (s : pystr) : Prop :=
  (forall c rest, s = c :: rest -> isspace c = false) /\
  (forall c front, s = front ++ [c] -> isspace c = false).

End Spec.

(* ===================================================================== *)
(** * Facts about the pattern engine *)
(* ===================================================================== *)

Module ReFacts.

Import re Spec.

#[local] Hint Constructors matches : core.

Lemma greedy_spec cs s rest :
  In rest (greedy cs s) <-> exists w, s = w ++ rest /\ forallb cs w = true.
Proof.
  revert rest; induction s as [|c t IH]; intros rest; simpl.
  - split.
    + intros [<-|[]]. exists []; auto.
    + intros (w & Hs & _). symmetry in Hs. apply app_eq_nil in Hs as [_ ->]; auto.
  - destruct (cs c) eqn:Hc.
    + rewrite in_app_iff, IH; simpl. split.
      * intros [(w & -> & Hw)|[<-|[]]].
        -- exists (c :: w); simpl; rewrite Hc; auto.
        -- exists []; auto.
      * intros (w & Hs & Hw). destruct w as [|c' w]; simpl in *.
        -- right; left; auto.
        -- injection Hs as <- ->. left. exists w. split; auto.
           apply andb_true_iff in Hw as [_ Hw]; auto.
    + simpl. split.
      * intros [<-|[]]. exists []; auto.
      * intros (w & Hs & Hw). destruct w as [|c' w]; simpl in *; auto.
        injection Hs as <- ->. rewrite Hc in Hw. discriminate.
Qed.

Lemma reluctant_spec cs s rest :
  In rest (reluctant cs s) <-> exists w, s = w ++ rest /\ forallb cs w = true.
Proof.
  revert rest; induction s as [|c t IH]; intros rest; simpl.
  - split.
    + intros [<-|[]]. exists []; auto.
    + intros (w & Hs & _). symmetry in Hs. apply app_eq_nil in Hs as [_ ->]; auto.
  - destruct (cs c) eqn:Hc.
    + rewrite IH. split.
      * intros [<-|(w & -> & Hw)].
        -- exists []; auto.
        -- exists (c :: w); simpl; rewrite Hc; auto.
      * intros (w & Hs & Hw). destruct w as [|c' w]; simpl in *; auto.
        injection Hs as <- ->. right. exists w. split; auto.
        apply andb_true_iff in Hw as [_ Hw]; auto.
    + split.
      * intros [<-|[]]. exists []; auto.
      * intros (w & Hs & Hw). destruct w as [|c' w]; simpl in *; auto.
        injection Hs as <- ->. rewrite Hc in Hw. discriminate.
Qed.

(** The engine enumerates exactly the prefixes in the language. *)
Lemma run_spec r : forall s rest,
  In rest (run r s) <-> exists w, s = w ++ rest /\ matches r w.
Proof.
  induction r as [cs|r1 IH1 r2 IH2|r1 IH1 r2 IH2|cs|cs]; intros s rest; simpl.
  - destruct s as [|c t].
    + split; [intros []|]. intros (w & Hs & Hm). inversion Hm; subst. discriminate.
    + destruct (cs c) eqn:Hc; simpl.
      * split.
        -- intros [<-|[]]. exists [c]; auto.
        -- intros (w & Hs & Hm). inversion Hm; subst. injection Hs as _ ->; auto.
      * split; [intros []|]. intros (w & Hs & Hm). inversion Hm; subst.
        injection Hs as <- _. congruence.
  - rewrite in_flat_map. split.
    + intros (mid & H1 & H2). apply IH1 in H1 as (w1 & -> & Hm1).
      apply IH2 in H2 as (w2 & -> & Hm2).
      exists (w1 ++ w2). rewrite <- app_assoc; auto.
    + intros (w & -> & Hm). inversion Hm; subst.
      exists (w2 ++ rest). split.
      * apply IH1. exists w1. rewrite <- app_assoc; auto.
      * apply IH2. eauto.
  - rewrite in_app_iff, IH1, IH2. split.
    + intros [(w & -> & Hm)|(w & -> & Hm)]; eauto.
    + intros (w & -> & Hm). inversion Hm; subst; eauto.
  - rewrite greedy_spec. split.
    + intros (w & -> & Hw); eauto.
    + intros (w & -> & Hm). inversion Hm; subst; eauto.
  - rewrite reluctant_spec. split.
    + intros (w & -> & Hw); eauto.
    + intros (w & -> & Hm). inversion Hm; subst; eauto.
Qed.

Lemma take_app_rest (w rest : pystr) :
  take (length (w ++ rest) - length rest) (w ++ rest) = w.
Proof.
  rewrite length_app.
  replace (length w + length rest - length rest) with (length w) by lia.
  apply take_app_length.
Qed.

(** What the engine reports at a position is in the language. *)
Lemma match_at_sound r s m :
  match_at r s = Some m -> exists rest, s = m ++ rest /\ matches r m.
Proof.
  unfold match_at. destruct (run r s) as [|rest l] eqn:Hrun; [discriminate|].
  intros [= <-].
  assert (In rest (run r s)) as Hin by (rewrite Hrun; left; auto).
  apply run_spec in Hin as (w & -> & Hm).
  exists rest. rewrite take_app_rest. auto.
Qed.

(** It reports nothing only when no prefix is in the language. *)
Lemma match_at_none r s :
  match_at r s = None <-> forall w rest, s = w ++ rest -> ~ matches r w.
Proof.
  unfold match_at. split.
  - destruct (run r s) as [|x l] eqn:Hrun; [|discriminate].
    intros _ w rest Hs Hm.
    assert (In rest (run r s)) as Hin by (apply run_spec; eauto).
    rewrite Hrun in Hin. destruct Hin.
  - intros H. destruct (run r s) as [|x l] eqn:Hrun; auto.
    assert (In x (run r s)) as Hin by (rewrite Hrun; left; auto).
    apply run_spec in Hin as (w & Hs & Hm). destruct (H w x Hs Hm).
Qed.

(** [search] reports the leftmost position at which the pattern matches. *)
Lemma search_some r : forall s i m,
  search r s = Some (i, m) ->
  i <= length s /\ match_at r (drop i s) = Some m /\
  forall j, j < i -> match_at r (drop j s) = None.
Proof.
  induction s as [|c t IH]; intros i m; simpl.
  - destruct (match_at r []) as [m'|] eqn:H0; [|discriminate].
    intros [= <- <-]. repeat split; auto. intros j Hj; lia.
  - destruct (match_at r (c :: t)) as [m'|] eqn:H0.
    + intros [= <- <-]. repeat split; auto; [lia|]. intros j Hj; lia.
    + destruct (search r t) as [[i' m']|] eqn:Hs; [|discriminate].
      intros [= <- <-]. destruct (IH _ _ eq_refl) as (Hle & Hm & Hlt).
      repeat split; simpl; auto; [lia|].
      intros [|j] Hj; simpl; auto. apply Hlt; lia.
Qed.

Lemma search_none r : forall s,
  search r s = None -> forall j, match_at r (drop j s) = None.
Proof.
  induction s as [|c t IH]; simpl.
  - destruct (match_at r []) eqn:H0; [discriminate|].
    intros _ j. rewrite drop_nil; auto.
  - destruct (match_at r (c :: t)) eqn:H0; [discriminate|].
    destruct (search r t) as [[i' m']|] eqn:Hs; [discriminate|].
    intros _ [|j]; simpl; auto.
Qed.

Lemma search_complete r s j :
  is_Some (match_at r (drop j s)) -> is_Some (search r s).
Proof.
  intros [m Hm]. destruct (search r s) as [x|] eqn:Hs; [eauto|].
  rewrite (search_none _ _ Hs j) in Hm. discriminate.
Qed.

(** ** Greedy and reluctant repetition in front of a fixed-width tail *)

Lemma cat_star_bound cs r2 n s y :
  (forall w, matches r2 w -> length w = n) ->
  In y (run (Cat (Star cs) r2) s) \/ In y (run (Cat (StarLazy cs) r2) s) ->
  n + length y <= length s.
Proof.
  intros Hn Hin.
  assert (exists w1 w2, s = (w1 ++ w2) ++ y /\ matches r2 w2) as (w1 & w2 & -> & H2).
  { destruct Hin as [Hin|Hin]; apply run_spec in Hin as (w & -> & Hm);
      inversion Hm; subst; eauto. }
  rewrite !length_app, (Hn _ H2). lia.
Qed.

Lemma fixed_width_run r2 n s y :
  (forall w, matches r2 w -> length w = n) ->
  In y (run r2 s) -> length s = n + length y.
Proof.
  intros Hn Hin. apply run_spec in Hin as (w & -> & Hm).
  rewrite length_app, (Hn _ Hm). lia.
Qed.

(** Greedy repetition: the first alternative tried leaves the least. *)
Lemma star_cat_first_longest cs r2 n :
  (forall w, matches r2 w -> length w = n) ->
  forall s x l, run (Cat (Star cs) r2) s = x :: l ->
  forall y, In y (x :: l) -> length x <= length y.
Proof.
  intros Hn. induction s as [|c t IH]; intros x l Hrun y Hy.
  - simpl in Hrun. rewrite app_nil_r in Hrun.
    assert (In x (run r2 [])) as Hx by (rewrite Hrun; left; auto).
    rewrite <- Hrun in Hy.
    apply (fixed_width_run _ n) in Hx, Hy; auto. lia.
  - change (run (Cat (Star cs) r2) (c :: t))
      with (flat_map (run r2) (if cs c then greedy cs t ++ [c :: t] else [c :: t]))
      in Hrun.
    assert (forall z, In z (run r2 (c :: t)) -> S (length t) = n + length z) as Hlast.
    { intros z Hz. apply (fixed_width_run _ n) in Hz; auto. }
    destruct (cs c).
    + rewrite flat_map_app in Hrun. simpl in Hrun. rewrite app_nil_r in Hrun.
      change (flat_map (run r2) (greedy cs t)) with (run (Cat (Star cs) r2) t) in Hrun.
      destruct (run (Cat (Star cs) r2) t) as [|x' l'] eqn:Ht.
      * simpl in Hrun. rewrite <- Hrun in Hy.
        assert (In x (run r2 (c :: t))) as Hx by (rewrite Hrun; left; auto).
        apply Hlast in Hx, Hy. lia.
      * simpl in Hrun. injection Hrun as <- <-.
        destruct Hy as [<-|Hy]; [lia|].
        apply in_app_iff in Hy as [Hy|Hy].
        -- apply (IH x' l' eq_refl). right; auto.
        -- apply Hlast in Hy.
           assert (n + length x' <= length t).
           { apply (cat_star_bound cs r2); auto. left. rewrite Ht. left; auto. }
           lia.
    + simpl in Hrun. rewrite app_nil_r in Hrun. rewrite <- Hrun in Hy.
      assert (In x (run r2 (c :: t))) as Hx by (rewrite Hrun; left; auto).
      apply Hlast in Hx, Hy. lia.
Qed.

(** Reluctant repetition: the first alternative tried leaves the most. *)
Lemma lazy_cat_first_shortest cs r2 n :
  (forall w, matches r2 w -> length w = n) ->
  forall s x l, run (Cat (StarLazy cs) r2) s = x :: l ->
  forall y, In y (x :: l) -> length y <= length x.
Proof.
  intros Hn. induction s as [|c t IH]; intros x l Hrun y Hy.
  - simpl in Hrun. rewrite app_nil_r in Hrun.
    assert (In x (run r2 [])) as Hx by (rewrite Hrun; left; auto).
    rewrite <- Hrun in Hy.
    apply (fixed_width_run _ n) in Hx, Hy; auto. lia.
  - assert (n + length y <= S (length t)) as Hbound.
    { apply (cat_star_bound cs r2 n (c :: t)); auto. right. rewrite Hrun; auto. }
    change (run (Cat (StarLazy cs) r2) (c :: t))
      with (run r2 (c :: t) ++
            flat_map (run r2) (if cs c then reluctant cs t else []))
      in Hrun.
    destruct (run r2 (c :: t)) as [|x' l'] eqn:H0.
    + simpl in Hrun. destruct (cs c); [|discriminate].
      apply (IH x l); auto.
    + simpl in Hrun. injection Hrun as <- _.
      assert (In x' (run r2 (c :: t))) as Hx by (rewrite H0; left; auto).
      apply (fixed_width_run _ n) in Hx; auto. simpl in Hx. lia.
Qed.

Lemma chr_cat_run a R s :
  run (Cat (Chr a) R) s =
  match s with
  | c :: t => if a c then run R t else []
  | [] => []
  end.
Proof.
  simpl. destruct s as [|c t]; auto. destruct (a c); simpl; auto using app_nil_r.
Qed.

(** ** The two patterns of client.py *)

Import Client.

Ltac invert_matches :=
  repeat match goal with
         | H : matches (Cat _ _) _ |- _ => inversion H; clear H; subst
         | H : matches (Alt _ _) _ |- _ => inversion H; clear H; subst
         | H : matches (Chr _) _ |- _ => inversion H; clear H; subst
         | H : matches (Star _) _ |- _ => inversion H; clear H; subst
         | H : matches (StarLazy _) _ |- _ => inversion H; clear H; subst
         end.

Lemma extensions_width ic w : matches (extensions ic) w -> length w = 3.
Proof. unfold extensions, ext3. intros H. invert_matches; reflexivity. Qed.

Lemma tail_width ic w :
  matches (Cat (Chr (lit ic ".")) (extensions ic)) w -> length w = 4.
Proof.
  intros H. inversion H; subst. rewrite length_app.
  rewrite (extensions_width _ _ H4). invert_matches. reflexivity.
Qed.

Lemma pattern_first_longest ic s x l :
  run (pattern ic) s = x :: l ->
  forall y, In y (x :: l) -> length x <= length y.
Proof.
  unfold pattern. rewrite chr_cat_run.
  destruct s as [|c1 s]; [discriminate|]. destruct (letter ic c1); [|discriminate].
  rewrite chr_cat_run.
  destruct s as [|c2 s]; [discriminate|]. destruct (lit ic ":" c2); [|discriminate].
  rewrite chr_cat_run.
  destruct s as [|c3 s]; [discriminate|]. destruct (slash c3); [|discriminate].
  apply (star_cat_first_longest _ _ 4). apply tail_width.
Qed.

Lemma simple_pattern_first_shortest ic s x l :
  run (simple_pattern ic) s = x :: l ->
  forall y, In y (x :: l) -> length y <= length x.
Proof.
  unfold simple_pattern. rewrite chr_cat_run.
  destruct s as [|c1 s]; [discriminate|]. destruct (letter ic c1); [|discriminate].
  rewrite chr_cat_run.
  destruct s as [|c2 s]; [discriminate|]. destruct (lit ic ":" c2); [|discriminate].
  rewrite chr_cat_run.
  destruct s as [|c3 s]; [discriminate|]. destruct (lit ic "\" c3); [|discriminate].
  apply (lazy_cat_first_shortest _ _ 4). apply tail_width.
Qed.

Lemma match_at_first r s m :
  match_at r s = Some m ->
  exists x l, run r s = x :: l /\ s = m ++ x.
Proof.
  unfold match_at. destruct (run r s) as [|x l] eqn:Hrun; [discriminate|].
  intros [= <-]. exists x, l. split; auto.
  assert (In x (run r s)) as Hin by (rewrite Hrun; left; auto).
  apply run_spec in Hin as (w & -> & _). rewrite take_app_rest. auto.
Qed.

(** At a position, the first pattern reports its longest match there. *)
Lemma pattern_match_longest ic s m w rest :
  match_at (pattern ic) s = Some m ->
  s = w ++ rest -> matches (pattern ic) w -> length w <= length m.
Proof.
  intros Hm Hs Hw. apply match_at_first in Hm as (x & l & Hrun & Hx).
  assert (In rest (run (pattern ic) s)) as Hin by (apply run_spec; eauto).
  rewrite Hrun in Hin. apply (pattern_first_longest _ _ _ _ Hrun) in Hin.
  assert (length s = length w + length rest) by (rewrite Hs, length_app; auto).
  assert (length s = length m + length x) by (rewrite Hx at 1; apply length_app).
  lia.
Qed.

(** At a position, the fallback pattern reports its shortest match there. *)
Lemma simple_pattern_match_shortest ic s m w rest :
  match_at (simple_pattern ic) s = Some m ->
  s = w ++ rest -> matches (simple_pattern ic) w -> length m <= length w.
Proof.
  intros Hm Hs Hw. apply match_at_first in Hm as (x & l & Hrun & Hx).
  assert (In rest (run (simple_pattern ic) s)) as Hin by (apply run_spec; eauto).
  rewrite Hrun in Hin. apply (simple_pattern_first_shortest _ _ _ _ Hrun) in Hin.
  assert (length s = length w + length rest) by (rewrite Hs, length_app; auto).
  assert (length s = length m + length x) by (rewrite Hx at 1; apply length_app).
  lia.
Qed.

(** ** The patterns and the spec's path shapes *)

(** Only the letters change under the engine's lower-case mapping. *)
Lemma lower_nonletter x c :
  (c < 97 \/ 122 < c)%N -> lower x = c -> x = c.
Proof.
  unfold lower. intros Hc.
  destruct ((65 <=? x) && (x <=? 90))%N eqn:H1.
  - apply andb_true_iff in H1 as [A B]. apply N.leb_le in A, B. lia.
  - destruct (x =? 304)%N; [lia|]. destruct (x =? 8490)%N; [lia|]. auto.
Qed.

Lemma lit_punct ic (c : ascii) x :
  (ch c < 65 \/ 90 < ch c < 97 \/ 122 < ch c)%N ->
  lit ic c x = true <-> x = ch c.
Proof.
  intros Hc. unfold lit.
  pose proof (N_ascii_bounded c) as Hb. fold (ch c) in Hb.
  assert (lower (ch c) = ch c) as Hl.
  { unfold lower.
    destruct ((65 <=? ch c) && (ch c <=? 90))%N eqn:H1.
    - apply andb_true_iff in H1 as [A B]. apply N.leb_le in A, B. lia.
    - destruct (N.eqb_spec (ch c) 304); [lia|].
      destruct (N.eqb_spec (ch c) 8490); [lia|]. auto. }
  destruct ic.
  - rewrite Hl. unfold case_fix.
    destruct (N.eqb_spec (ch c) 105); [lia|].
    destruct (N.eqb_spec (ch c) 115); [lia|].
    simpl. rewrite orb_false_r, N.eqb_eq. split.
    + intros H. apply lower_nonletter; auto. lia.
    + intros ->. auto.
  - apply N.eqb_eq.
Qed.

Lemma lit_colon ic x : lit ic ":" x = true <-> x = ch ":".
Proof. apply lit_punct. vm_compute. left. reflexivity. Qed.

Lemma lit_dot ic x : lit ic "." x = true <-> x = ch ".".
Proof. apply lit_punct. vm_compute. left. reflexivity. Qed.

Lemma lit_backslash ic x : lit ic "\" x = true <-> x = ch "\".
Proof. apply lit_punct. vm_compute. right. left. split; reflexivity. Qed.

Lemma extensions_spec ic e : matches (extensions ic) e <-> is_video_ext ic e = true.
Proof.
  unfold is_video_ext, video_extensions, extensions, ext3. split.
  - intros H. invert_matches; simpl;
      repeat match goal with H : lit _ _ _ = true |- _ => rewrite H; clear H end;
      simpl; rewrite ?orb_true_r; reflexivity.
  - assert (forall a b c, spells ic (String a (String b (String c EmptyString))) e = true ->
              matches (Cat (Chr (lit ic a)) (Cat (Chr (lit ic b)) (Chr (lit ic c)))) e) as Hsp.
    { intros a b c. destruct e as [|x [|y [|z [|? ?]]]]; simpl;
        rewrite ?andb_false_r; try discriminate.
      rewrite andb_true_r, !andb_true_iff. intros (Ha & Hb & Hc).
      apply (matches_cat _ _ [x] [y; z]); auto.
      apply (matches_cat _ _ [y] [z]); auto. }
    intros H. apply existsb_exists in H as (name & Hin & H).
    simpl in Hin. destruct Hin as [<-|[<-|[<-|[<-|[<-|[]]]]]]; apply Hsp in H; auto 10.
Qed.

Lemma strict_path_matches ic p : strict_path ic p <-> matches (pattern ic) p.
Proof.
  unfold strict_path, pattern. split.
  - intros (d & sep & body & e & -> & Hd & Hsep & Hbody & He).
    apply (matches_cat _ _ [d]); auto.
    apply (matches_cat _ _ [ch ":"]); [constructor; apply lit_colon; auto|].
    apply (matches_cat _ _ [sep]); auto.
    apply (matches_cat _ _ body); auto.
    apply (matches_cat _ _ [ch "."]); [constructor; apply lit_dot; auto|].
    apply extensions_spec; auto.
  - intros H.
    inversion H as [|? ? w1 r1 H1 Hr1| | | |]; subst; clear H.
    inversion Hr1 as [|? ? w2 r2 H2 Hr2| | | |]; subst; clear Hr1.
    inversion Hr2 as [|? ? w3 r3 H3 Hr3| | | |]; subst; clear Hr2.
    inversion Hr3 as [|? ? w4 r4 H4 Hr4| | | |]; subst; clear Hr3.
    inversion Hr4 as [|? ? w5 r5 H5 Hr5| | | |]; subst; clear Hr4.
    inversion H1; inversion H2; inversion H3; inversion H4; inversion H5; subst.
    apply extensions_spec in Hr5.
    match goal with H : lit ic ":" _ = true |- _ => apply lit_colon in H; subst end.
    match goal with H : lit ic "." _ = true |- _ => apply lit_dot in H; subst end.
    eexists _, _, _, _. split; [reflexivity|]. auto.
Qed.

Lemma loose_path_matches ic p : loose_path ic p <-> matches (simple_pattern ic) p.
Proof.
  unfold loose_path, simple_pattern. split.
  - intros (d & body & e & -> & Hd & Hbody & He).
    apply (matches_cat _ _ [d]); auto.
    apply (matches_cat _ _ [ch ":"]); [constructor; apply lit_colon; auto|].
    apply (matches_cat _ _ [ch "\"]); [constructor; apply lit_backslash; auto|].
    apply (matches_cat _ _ body); auto.
    apply (matches_cat _ _ [ch "."]); [constructor; apply lit_dot; auto|].
    apply extensions_spec; auto.
  - intros H.
    inversion H as [|? ? w1 r1 H1 Hr1| | | |]; subst; clear H.
    inversion Hr1 as [|? ? w2 r2 H2 Hr2| | | |]; subst; clear Hr1.
    inversion Hr2 as [|? ? w3 r3 H3 Hr3| | | |]; subst; clear Hr2.
    inversion Hr3 as [|? ? w4 r4 H4 Hr4| | | |]; subst; clear Hr3.
    inversion Hr4 as [|? ? w5 r5 H5 Hr5| | | |]; subst; clear Hr4.
    inversion H1; inversion H2; inversion H3; inversion H4; inversion H5; subst.
    apply extensions_spec in Hr5.
    match goal with H : lit ic ":" _ = true |- _ => apply lit_colon in H; subst end.
    match goal with H : lit ic "." _ = true |- _ => apply lit_dot in H; subst end.
    match goal with H : lit ic "\" _ = true |- _ => apply lit_backslash in H; subst end.
    eexists _, _, _. split; [reflexivity|]. auto.
Qed.

(** ** [search] against occurrences *)

Lemma occurs_at_drop P q i p :
  occurs_at P q i p <-> P p /\ i <= length q /\ exists post, drop i q = p ++ post.
Proof.
  unfold occurs_at. split.
  - intros (HP & pre & post & -> & <-). split; auto. split.
    + rewrite length_app. lia.
    + exists post. apply drop_app_length.
  - intros (HP & Hi & post & Hd). split; auto.
    exists (take i q), post. split.
    + rewrite <- Hd. symmetry. apply take_drop.
    + apply length_take_le. auto.
Qed.

Lemma occurs_at_iff (P Q : pystr -> Prop) q i p :
  (forall x, P x <-> Q x) -> occurs_at P q i p <-> occurs_at Q q i p.
Proof. intros H. unfold occurs_at. rewrite H. reflexivity. Qed.

Lemma search_leftmost r q i m :
  search r q = Some (i, m) ->
  occurs_at (matches r) q i m /\
  forall j p, occurs_at (matches r) q j p ->
    i <= j /\ (j = i -> exists rest rest', drop i q = m ++ rest /\ drop i q = p ++ rest').
Proof.
  intros Hs. apply search_some in Hs as (Hi & Hm & Hlt).
  pose proof (match_at_sound _ _ _ Hm) as (rest & Hd & Hmm).
  split.
  - apply occurs_at_drop. eauto.
  - intros j p Hocc. apply occurs_at_drop in Hocc as (Hp & Hj & post & Hdj).
    assert (i <= j) as Hij.
    { destruct (le_lt_dec i j) as [|Hji]; auto.
      specialize (Hlt j Hji). rewrite match_at_none in Hlt.
      destruct (Hlt _ _ Hdj Hp). }
    split; auto. intros ->. eauto.
Qed.

Lemma search_none_occurs r q :
  search r q = None <-> forall j p, ~ occurs_at (matches r) q j p.
Proof.
  split.
  - intros Hs j p Hocc. apply occurs_at_drop in Hocc as (Hp & Hj & post & Hd).
    pose proof (search_none _ _ Hs j) as Hn. rewrite match_at_none in Hn.
    destruct (Hn _ _ Hd Hp).
  - intros H. destruct (search r q) as [[i m]|] eqn:Hs; auto.
    apply search_leftmost in Hs as [Hocc _]. destruct (H _ _ Hocc).
Qed.

(** The first pattern: leftmost, and the longest there. *)
Lemma search_pattern_spec ic q i m :
  search (pattern ic) q = Some (i, m) ->
  occurs_at (strict_path ic) q i m /\
  forall j p, occurs_at (strict_path ic) q j p ->
    i <= j /\ (j = i -> length p <= length m).
Proof.
  intros Hs. pose proof (search_some _ _ _ _ Hs) as (_ & Hm & _).
  apply search_leftmost in Hs as [Hocc Hmin]. split.
  - eapply occurs_at_iff; [apply strict_path_matches|]; auto.
  - intros j p Hp.
    apply (occurs_at_iff _ (matches (pattern ic))) in Hp; [|apply strict_path_matches].
    destruct (Hmin _ _ Hp) as [Hij Heq]. split; auto.
    intros ->. destruct Hp as [Hp _].
    destruct (Heq eq_refl) as (rest & rest' & _ & Hd').
    eapply pattern_match_longest; eauto.
Qed.

(** The fallback pattern: leftmost, and the shortest there. *)
Lemma search_simple_pattern_spec ic q i m :
  search (simple_pattern ic) q = Some (i, m) ->
  occurs_at (loose_path ic) q i m /\
  forall j p, occurs_at (loose_path ic) q j p ->
    i <= j /\ (j = i -> length m <= length p).
Proof.
  intros Hs. pose proof (search_some _ _ _ _ Hs) as (_ & Hm & _).
  apply search_leftmost in Hs as [Hocc Hmin]. split.
  - eapply occurs_at_iff; [apply loose_path_matches|]; auto.
  - intros j p Hp.
    apply (occurs_at_iff _ (matches (simple_pattern ic))) in Hp; [|apply loose_path_matches].
    destruct (Hmin _ _ Hp) as [Hij Heq]. split; auto.
    intros ->. destruct Hp as [Hp _].
    destruct (Heq eq_refl) as (rest & rest' & _ & Hd').
    eapply simple_pattern_match_shortest; eauto.
Qed.

Lemma search_pattern_none ic q :
  search (pattern ic) q = None <-> forall j p, ~ occurs_at (strict_path ic) q j p.
Proof.
  rewrite search_none_occurs. split; intros H j p Hocc; apply (H j p);
    eapply occurs_at_iff; try apply Hocc; intros x;
    [symmetry|]; apply strict_path_matches.
Qed.

Lemma search_simple_pattern_none ic q :
  search (simple_pattern ic) q = None <-> forall j p, ~ occurs_at (loose_path ic) q j p.
Proof.
  rewrite search_none_occurs. split; intros H j p Hocc; apply (H j p);
    eapply occurs_at_iff; try apply Hocc; intros x;
    [symmetry|]; apply loose_path_matches.
Qed.

End ReFacts.

(* ===================================================================== *)
(** * client.py: path and question extraction, verified *)
(* ===================================================================== *)

Module ExtractFacts.

Import re Spec Client ReFacts.

(** The sample queries used below. *)
Example strict_sample : extract_video_path (str_of "see C:\clips\a.MP4 now")
                        = Some (str_of "C:\clips\a.MP4").
Proof. vm_compute. reflexivity. Qed.

Example fallback_sample : extract_video_path (str_of "C:\a?b.mp4")
                          = Some (str_of "C:\a?b.mp4").
Proof. vm_compute. reflexivity. Qed.

Example no_path_sample : extract_video_path (str_of "what is in my video") = None.
Proof. vm_compute. reflexivity. Qed.

(** C4, as stated, fails: a query can hold one well-formed path inside
    another, and the greedy first pattern returns the longer one.  The
    query [C:\a.mp4 b.avi] starts with the well-formed path [C:\a.mp4], and
    [extract_video_path] returns the whole query.  Nor is [None] returned
    whenever no well-formed path occurs: [C:\a?b.mp4] holds none (the
    question mark is illegal in a path), and the fallback pattern returns
    it. *)
Lemma extract_video_path_greedy_counterexample :
  occurs_at (strict_path true) (str_of "C:\a.mp4 b.avi") 0 (str_of "C:\a.mp4") /\
  extract_video_path (str_of "C:\a.mp4 b.avi") = Some (str_of "C:\a.mp4 b.avi") /\
  extract_video_path (str_of "C:\a.mp4 b.avi") <> Some (str_of "C:\a.mp4") /\
  (forall j p, ~ occurs_at (strict_path true) (str_of "C:\a?b.mp4") j p) /\
  extract_video_path (str_of "C:\a?b.mp4") <> None.
Proof.
  split; [|split; [|split; [|split]]].
  - split.
    + exists (ch "C"), (ch "\"), (str_of "a"), (str_of "mp4"). repeat split.
    + exists [], (str_of " b.avi"). split; reflexivity.
  - vm_compute. reflexivity.
  - vm_compute. discriminate.
  - apply search_pattern_none. vm_compute. reflexivity.
  - vm_compute. discriminate.
Qed.

(** C4, amended: [extract_video_path] tries the strict pattern first and
    the fallback pattern only when the strict one matches nowhere.
    - When a well-formed (strict-shaped) path occurs in the query, the
      result is the well-formed path that starts leftmost in the query and
      is the longest one starting there; so a well-formed path that is the
      only one in the query is returned exactly.
    - When none occurs but a loose-shaped path does, the result is the
      loose-shaped path that starts leftmost and is the shortest there.
    - When neither occurs the result is [None].
    The extension is compared letter case apart throughout. *)
Theorem extract_video_path_leftmost (q : pystr) :
  (forall i p, occurs_at (strict_path true) q i p ->
     exists i0 p0, extract_video_path q = Some p0 /\
       occurs_at (strict_path true) q i0 p0 /\
       i0 <= i /\ (i0 = i -> length p <= length p0) /\
       ((forall j p', occurs_at (strict_path true) q j p' -> p' = p) -> p0 = p)) /\
  ((forall i p, ~ occurs_at (strict_path true) q i p) ->
   forall i p, occurs_at (loose_path true) q i p ->
     exists i0 p0, extract_video_path q = Some p0 /\
       occurs_at (loose_path true) q i0 p0 /\
       i0 <= i /\ (i0 = i -> length p0 <= length p)) /\
  ((forall i p, ~ occurs_at (strict_path true) q i p) ->
   (forall i p, ~ occurs_at (loose_path true) q i p) ->
   extract_video_path q = None).
Proof.
  unfold extract_video_path. split; [|split].
  - intros i p Hocc.
    destruct (search (pattern true) q) as [[i0 p0]|] eqn:Hs.
    + apply search_pattern_spec in Hs as [H0 Hmin].
      destruct (Hmin _ _ Hocc) as [Hle Hlen].
      exists i0, p0. repeat split; auto.
      * apply H0.
      * apply H0.
      * intros Huniq. apply (Huniq i0). auto.
    + rewrite search_pattern_none in Hs. destruct (Hs _ _ Hocc).
  - intros Hnone i p Hocc.
    apply search_pattern_none in Hnone. rewrite Hnone.
    destruct (search (simple_pattern true) q) as [[i0 p0]|] eqn:Hs.
    + apply search_simple_pattern_spec in Hs as [H0 Hmin].
      destruct (Hmin _ _ Hocc) as [Hle Hlen].
      exists i0, p0. repeat split; auto; apply H0.
    + rewrite search_simple_pattern_none in Hs. destruct (Hs _ _ Hocc).
  - intros Hnone Hnone'.
    apply search_pattern_none in Hnone. apply search_simple_pattern_none in Hnone'.
    rewrite Hnone, Hnone'. reflexivity.
Qed.

(** C5: on a query whose path has an upper-case extension,
    [extract_video_path] finds the path but [extract_text_question] leaves
    it in the question: its substitution that ignores case is overwritten
    by one that does not.  The first assignment alone would have given
    [describe it]. *)
Theorem extract_text_question_keeps_uppercase_path :
  extract_video_path (str_of "C:\clips\a.MP4 describe it")
    = Some (str_of "C:\clips\a.MP4") /\
  extract_text_question (str_of "C:\clips\a.MP4 describe it")
    = str_of "C:\clips\a.MP4 describe it" /\
  strip (sub (pattern true) [] (str_of "C:\clips\a.MP4 describe it"))
    = str_of "describe it".
Proof. vm_compute. repeat split. Qed.

End ExtractFacts.

(* ===================================================================== *)
(** * server.py: the tool host, verified *)
(* ===================================================================== *)

Module ServerFacts.

Import Spec Server.

Section Host.

Variable fs : pystr -> option video.
Variable luma : bgr -> Z.
Variable wide : Z -> result Z.

(** ** One frame *)

(** A binarised frame is white or black at every pixel. *)
Lemma frame_counts_partition (t : Z) (f : frame) :
  (white_of luma t f + black_of luma t f = Z.of_nat (length (pixels f)))%Z.
Proof.
  unfold white_of, black_of.
  induction (pixels f) as [|p l IH]; simpl; auto.
  destruct (Z.ltb_spec t (luma p)), (Z.leb_spec (luma p) t); simpl; lia.
Qed.

(** What the loop counts in the binarised image are the pixels above the
    threshold and the others. *)
Lemma count_white (t : Z) (f : frame) :
  count_eq
    {| gheight := height f; gwidth := width f;
       gpixels := List.map (fun p => if (t <? p)%Z then 255%Z else 0%Z)
                           (List.map luma (pixels f)) |} 255 = white_of luma t f.
Proof.
  unfold count_eq, white_of. cbn [gpixels]. f_equal.
  induction (pixels f) as [|p l IH]; simpl; auto.
  destruct (t <? luma p)%Z; simpl; auto.
Qed.

Lemma count_black (t : Z) (f : frame) :
  count_eq
    {| gheight := height f; gwidth := width f;
       gpixels := List.map (fun p => if (t <? p)%Z then 255%Z else 0%Z)
                           (List.map luma (pixels f)) |} 0 = black_of luma t f.
Proof.
  unfold count_eq, black_of. cbn [gpixels]. f_equal.
  induction (pixels f) as [|p l IH]; simpl; auto.
  destruct (Z.ltb_spec t (luma p)), (Z.leb_spec (luma p) t); simpl; auto; lia.
Qed.

(** A threshold within 32 bits is used as it is. *)
Lemma int_threshold_exact (t : Z) :
  (- 2 ^ 31 <= t < 2 ^ 31)%Z -> int_threshold wide t = Ok t.
Proof.
  intros [Hlo Hhi]. unfold int_threshold.
  destruct (Z.leb_spec (- 2 ^ 31) t); [|lia].
  destruct (Z.ltb_spec t (2 ^ 31)); [|lia]. reflexivity.
Qed.

(** ** The frame loops *)

Lemma read_opened cap cap' r :
  read cap = (cap', r) -> opened cap' = opened cap.
Proof.
  unfold read. destruct (opened cap) eqn:Ho.
  - destruct (pending cap) as [|[f| |e] rest]; intros [= <- <-]; auto.
  - intros [= <- <-]; auto.
Qed.

Lemma binarization_loop_grabbed t i n st k src f rest p :
  int_threshold wide t = Ok i ->
  binarization_loop luma wide t (S n) st k
    {| opened := true; source := src; pending := Grabbed f :: rest; pos := p |} =
  binarization_loop luma wide t n
    {| white_pixel_counts := white_pixel_counts st ++ [white_of luma i f];
       black_pixel_counts := black_pixel_counts st ++ [black_of luma i f];
       frame_brightness := frame_brightness st ++ [brightness_of luma f] |}
    (S k)
    {| opened := true; source := src; pending := rest; pos := S p |}.
Proof.
  intros Hi. cbn [binarization_loop read opened pending source pos].
  unfold threshold_BINARY. rewrite Hi.
  unfold cvtColor_BGR2GRAY. cbn [gheight gwidth gpixels].
  rewrite count_white, count_black. reflexivity.
Qed.

Lemma inference_loop_grabbed n acc src f rest p :
  inference_loop (S n) acc
    {| opened := true; source := src; pending := Grabbed f :: rest; pos := p |} =
  inference_loop n (acc ++ [mean_color f])
    {| opened := true; source := src; pending := rest; pos := S p |}.
Proof. reflexivity. Qed.

(** What [binarization_loop] computes from an opened capture that has at
    most [n] reads pending, when the threshold can be converted: it stops
    at the first read that is not a frame, leaves the capture opened, and
    has gathered one entry per frame read. *)
Lemma binarization_loop_spec t i : int_threshold wide t = Ok i ->
  forall n st k cap,
  opened cap = true -> length (pending cap) <= n ->
  opened (fst (binarization_loop luma wide t n st k cap)) = true /\
  pos (fst (binarization_loop luma wide t n st k cap))
    = pos cap + length (grabbed (pending cap)) /\
  snd (binarization_loop luma wide t n st k cap) =
    match first_error (pending cap) with
    | Some e => Raise e
    | None =>
        Ok ({| white_pixel_counts :=
                 white_pixel_counts st ++ List.map (white_of luma i) (grabbed (pending cap));
               black_pixel_counts :=
                 black_pixel_counts st ++ List.map (black_of luma i) (grabbed (pending cap));
               frame_brightness :=
                 frame_brightness st ++ List.map (brightness_of luma) (grabbed (pending cap)) |},
            k + length (grabbed (pending cap)))
    end.
Proof.
  intros Hi.
  induction n as [|n IH]; intros st k cap Ho Hlen.
  - destruct cap as [o src pend p]; simpl in Ho, Hlen. subst o.
    destruct pend; [|simpl in Hlen; lia].
    destruct st; simpl. rewrite !app_nil_r, !Nat.add_0_r. auto.
  - destruct cap as [o src pend p]; simpl in Ho, Hlen. subst o.
    destruct pend as [|[f| |e] rest].
    + destruct st; simpl. rewrite !app_nil_r, !Nat.add_0_r. auto.
    + rewrite (binarization_loop_grabbed t i) by exact Hi.
      edestruct (IH
        {| white_pixel_counts := white_pixel_counts st ++ [white_of luma i f];
           black_pixel_counts := black_pixel_counts st ++ [black_of luma i f];
           frame_brightness := frame_brightness st ++ [brightness_of luma f] |}
        (S k)
        {| opened := true; source := src; pending := rest; pos := S p |})
        as (Hop & Hpos & Hsnd); [reflexivity|simpl in *; lia|].
      split; [exact Hop|]. split.
      * rewrite Hpos. simpl. lia.
      * rewrite Hsnd. simpl. destruct (first_error rest); auto.
        rewrite <- !app_assoc. simpl. do 3 f_equal. lia.
    + destruct st; simpl. rewrite !app_nil_r, !Nat.add_0_r. auto.
    + simpl. auto.
Qed.

(** When the threshold cannot be converted, the loop is left by that
    exception at the first frame it reads; a capture that delivers no frame
    never meets it. *)
Lemma binarization_loop_unconverted t e n st k cap :
  int_threshold wide t = Raise e ->
  opened cap = true ->
  opened (fst (binarization_loop luma wide t n st k cap)) = true /\
  match pending cap with
  | Grabbed _ :: _ =>
      pos (fst (binarization_loop luma wide t n st k cap)) = S (pos cap) /\
      snd (binarization_loop luma wide t n st k cap) = Raise e
  | ReadError e' :: _ =>
      pos (fst (binarization_loop luma wide t n st k cap)) = pos cap /\
      snd (binarization_loop luma wide t n st k cap) = Raise e'
  | _ =>
      pos (fst (binarization_loop luma wide t n st k cap)) = pos cap /\
      snd (binarization_loop luma wide t n st k cap) = Ok (st, k)
  end.
Proof.
  intros He Ho. destruct cap as [o src pend p]; simpl in Ho. subst o.
  destruct n; destruct pend as [|[f| |e'] rest];
    cbn [binarization_loop read opened pending source pos fst snd];
    unfold threshold_BINARY; rewrite ?He; auto.
Qed.

Lemma inference_loop_spec : forall n acc cap,
  opened cap = true -> length (pending cap) <= n ->
  opened (fst (inference_loop n acc cap)) = true /\
  pos (fst (inference_loop n acc cap)) = pos cap + length (grabbed (pending cap)) /\
  snd (inference_loop n acc cap) =
    match first_error (pending cap) with
    | Some e => Raise e
    | None => Ok (acc ++ List.map mean_color (grabbed (pending cap)))
    end.
Proof.
  induction n as [|n IH]; intros acc cap Ho Hlen.
  - destruct cap as [o src pend p]; simpl in Ho, Hlen. subst o.
    destruct pend; [|simpl in Hlen; lia].
    simpl. rewrite app_nil_r, Nat.add_0_r. auto.
  - destruct cap as [o src pend p]; simpl in Ho, Hlen. subst o.
    destruct pend as [|[f| |e] rest].
    + simpl. rewrite app_nil_r, Nat.add_0_r. auto.
    + rewrite inference_loop_grabbed.
      edestruct (IH (acc ++ [mean_color f])
        {| opened := true; source := src; pending := rest; pos := S p |})
        as (Hop & Hpos & Hsnd); [reflexivity|simpl in *; lia|].
      split; [exact Hop|]. split.
      * rewrite Hpos. simpl. lia.
      * rewrite Hsnd. simpl. destruct (first_error rest); auto.
        rewrite <- !app_assoc. reflexivity.
    + simpl. rewrite app_nil_r, Nat.add_0_r. auto.
    + simpl. auto.
Qed.

(** ** The two operations *)

Lemma error_payload_has_error : is_Some (error_payload !! "error").
Proof. unfold error_payload. rewrite lookup_singleton_eq. eauto. Qed.

Lemma error_payload_no_success : error_payload !! "success" = None.
Proof. unfold error_payload. apply lookup_singleton_ne. discriminate. Qed.

(** C7: for every path the host cannot open, both operations return (they
    do not raise) a payload that has the key [error]. *)
Theorem unopenable_path_error_payload (path : pystr) (threshold : Z) :
  fs path = None ->
  (exists cap d, inference_video fs path = (cap, Ok d) /\ is_Some (d !! "error")) /\
  (exists cap d, process_video_binarization fs luma wide path threshold = (cap, Ok d) /\
                 is_Some (d !! "error")).
Proof.
  intros Hfs.
  unfold inference_video, video_inference_model, process_video_binarization,
    video_binarization, VideoCapture, isOpened.
  rewrite Hfs. simpl.
  split; eexists _, _; split; try reflexivity; apply error_payload_has_error.
Qed.

(** The metadata both operations read before their loop. *)
Lemma get_opened v p :
  get {| opened := true; source := Some v; pending := stream v; pos := 0 |} p =
  match p with
  | CAP_PROP_FPS => prop_fps v
  | CAP_PROP_FRAME_COUNT => prop_frame_count v
  | CAP_PROP_FRAME_WIDTH => prop_frame_width v
  | CAP_PROP_FRAME_HEIGHT => prop_frame_height v
  end.
Proof. reflexivity. Qed.

(** The shape of every successful (non-error) result of
    [video_binarization]: the statistics of the frames read, in order, and a
    released capture that has delivered exactly those frames.  The
    threshold has been converted, unless no frame was read. *)
Lemma video_binarization_success path t cap' d :
  video_binarization fs luma wide path t = (cap', Ok d) ->
  d !! "success" = Some (VBool true) ->
  exists v,
    let i := threshold_used (int_threshold wide t) in
    fs path = Some v /\
    opened cap' = false /\
    pos cap' = length (grabbed (stream v)) /\
    (grabbed (stream v) = [] \/ int_threshold wide t = Ok i) /\
    lookup_stats d "white_pixel_counts"
      = Some (List.map VInt (List.map (white_of luma i) (grabbed (stream v)))) /\
    lookup_stats d "black_pixel_counts"
      = Some (List.map VInt (List.map (black_of luma i) (grabbed (stream v)))) /\
    lookup_stats d "frame_brightness"
      = Some (List.map VFloat (List.map (brightness_of luma) (grabbed (stream v)))).
Proof.
  unfold video_binarization, VideoCapture, isOpened.
  destruct (fs path) as [v|] eqn:Hfs; cbn [opened negb].
  - rewrite !get_opened.
    destruct (int_of_float (prop_frame_count v)) as [fc|]; [|discriminate].
    destruct (int_of_float (prop_frame_width v)) as [w|]; [|discriminate].
    destruct (int_of_float (prop_frame_height v)) as [h|]; [|discriminate].
    destruct (truediv fc (prop_fps v)) as [dur|]; [|discriminate].
    unfold try_finally_release. cbn [pending].
    destruct (int_threshold wide t) as [i|e] eqn:Hi.
    + match goal with
      | |- context [binarization_loop luma wide t ?n ?st ?k ?cap] =>
          destruct (binarization_loop_spec t i Hi n st k cap) as (Hop & Hpos & Hsnd);
          [reflexivity|simpl; lia|];
          destruct (binarization_loop luma wide t n st k cap) as [cap1 r]
      end.
      cbn [fst snd pending pos white_pixel_counts black_pixel_counts
           frame_brightness app Nat.add] in Hop, Hpos, Hsnd.
      subst r. destruct (first_error (stream v)); [discriminate|].
      intros [= <- <-] _. exists v. cbn [threshold_used]. repeat split; auto.
    + match goal with
      | |- context [binarization_loop luma wide t ?n ?st ?k ?cap] =>
          destruct (binarization_loop_unconverted t e n st k cap Hi) as (Hop & Hrest);
          [reflexivity|];
          destruct (binarization_loop luma wide t n st k cap) as [cap1 r]
      end.
      cbn [fst snd pending pos] in Hop, Hrest.
      destruct (stream v) as [|[f| |e'] rest] eqn:Hs; destruct Hrest as [Hpos Hsnd];
        subst r; try discriminate;
        intros [= <- <-] _; exists v; rewrite Hs; cbn [threshold_used grabbed];
        repeat split; auto.
  - intros [= <- <-] Hs. rewrite error_payload_no_success in Hs. discriminate.
Qed.

(** C10: in every successful result of the binarize operation the three
    per-frame lists have the same length, the number of frames the capture
    has delivered. *)
Theorem binarization_lists_same_length (path : pystr) (threshold : Z)
    (cap' : capture) (d : payload) :
  video_binarization fs luma wide path threshold = (cap', Ok d) ->
  d !! "success" = Some (VBool true) ->
  exists ws bs br,
    lookup_stats d "white_pixel_counts" = Some ws /\
    lookup_stats d "black_pixel_counts" = Some bs /\
    lookup_stats d "frame_brightness" = Some br /\
    length ws = pos cap' /\ length bs = pos cap' /\ length br = pos cap'.
Proof.
  intros Hrun Hok.
  destruct (video_binarization_success _ _ _ _ Hrun Hok)
    as (v & _ & _ & Hpos & _ & Hw & Hb & Hf).
  eexists _, _, _. repeat split; try eassumption;
    rewrite !length_map; auto.
Qed.

(** C6: for every frame the binarize operation has processed, whatever the
    threshold (in particular in [0,255]), the white count and the black
    count recorded for it add up to the frame's width times its height. *)
Theorem binarization_counts_partition (path : pystr) (threshold : Z)
    (cap' : capture) (d : payload) (v : video) :
  fs path = Some v ->
  Forall frame_wf (grabbed (stream v)) ->
  video_binarization fs luma wide path threshold = (cap', Ok d) ->
  exists ws bs,
    lookup_stats d "white_pixel_counts" = Some (List.map VInt ws) /\
    lookup_stats d "black_pixel_counts" = Some (List.map VInt bs) /\
    length ws = length (grabbed (stream v)) /\
    length bs = length (grabbed (stream v)) /\
    forall i f, grabbed (stream v) !! i = Some f ->
      exists w b, ws !! i = Some w /\ bs !! i = Some b /\
        (w + b = Z.of_nat (width f) * Z.of_nat (height f))%Z.
Proof.
  intros Hfs Hwf Hrun.
  assert (d !! "success" = Some (VBool true)) as Hok.
  { revert Hrun. unfold video_binarization, VideoCapture, isOpened.
    rewrite Hfs. cbn [opened negb].
    destruct (int_of_float _); [|discriminate].
    destruct (int_of_float _); [|discriminate].
    destruct (int_of_float _); [|discriminate].
    destruct (truediv _ _); [|discriminate].
    destruct (try_finally_release _ _) as [c [[st k]|e]]; [|discriminate].
    intros [= <- <-].
    rewrite !lookup_insert_ne, lookup_insert_eq by discriminate. auto. }
  destruct (video_binarization_success _ _ _ _ Hrun Hok)
    as (v' & Hfs' & _ & _ & _ & Hw & Hb & _).
  rewrite Hfs in Hfs'. injection Hfs' as <-.
  eexists _, _. split; [exact Hw|]. split; [exact Hb|].
  rewrite !length_map. split; auto. split; auto.
  intros i f Hi.
  exists (white_of luma (threshold_used (int_threshold wide threshold)) f),
    (black_of luma (threshold_used (int_threshold wide threshold)) f).
  rewrite !list_lookup_fmap, Hi. simpl. split; auto. split; auto.
  rewrite frame_counts_partition.
  rewrite Forall_forall in Hwf.
  assert (frame_wf f) as Hf.
  { apply Hwf. eapply list_elem_of_lookup_2; eauto. }
  unfold frame_wf in Hf. rewrite Hf. lia.
Qed.

(** Once the metadata is read, [video_inference_model] reaches its loop,
    and the [finally] releases the capture however the loop ends: at the end
    of the stream, on a failed read, or on a read that raises. *)
Lemma inference_releases_after_metadata path v fc dur :
  fs path = Some v ->
  int_of_float (prop_frame_count v) = Ok fc ->
  truediv fc (prop_fps v) = Ok dur ->
  opened (fst (video_inference_model fs path)) = false /\
  pos (fst (video_inference_model fs path)) = length (grabbed (stream v)) /\
  match first_error (stream v) with
  | Some e => snd (video_inference_model fs path) = Raise e
  | None => exists d, snd (video_inference_model fs path) = Ok d
  end.
Proof.
  intros Hfs Hfc Hdur.
  unfold video_inference_model, VideoCapture, isOpened.
  rewrite Hfs. cbn [opened negb]. rewrite !get_opened, Hfc, Hdur.
  unfold try_finally_release. cbn [pending].
  match goal with
  | |- context [inference_loop ?n ?acc ?cap] =>
      destruct (inference_loop_spec n acc cap) as (Hop & Hpos & Hsnd);
      [reflexivity|simpl; lia|];
      destruct (inference_loop n acc cap) as [cap1 r]
  end.
  cbn [fst snd pending pos app Nat.add] in Hop, Hpos, Hsnd. subst r.
  destruct (first_error (stream v)); simpl; eauto.
Qed.

Lemma binarization_releases_after_metadata path t v fc w h dur :
  fs path = Some v ->
  int_of_float (prop_frame_count v) = Ok fc ->
  int_of_float (prop_frame_width v) = Ok w ->
  int_of_float (prop_frame_height v) = Ok h ->
  truediv fc (prop_fps v) = Ok dur ->
  opened (fst (video_binarization fs luma wide path t)) = false /\
  match grabbed (stream v), int_threshold wide t with
  | _ :: _, Raise e =>
      pos (fst (video_binarization fs luma wide path t)) = 1 /\
      snd (video_binarization fs luma wide path t) = Raise e
  | _, _ =>
      pos (fst (video_binarization fs luma wide path t))
        = length (grabbed (stream v)) /\
      match first_error (stream v) with
      | Some e => snd (video_binarization fs luma wide path t) = Raise e
      | None => exists d, snd (video_binarization fs luma wide path t) = Ok d /\
                          d !! "success" = Some (VBool true)
      end
  end.
Proof.
  intros Hfs Hfc Hw Hh Hdur.
  unfold video_binarization, VideoCapture, isOpened.
  rewrite Hfs. cbn [opened negb]. rewrite !get_opened, Hfc, Hw, Hh, Hdur.
  unfold try_finally_release. cbn [pending].
  destruct (int_threshold wide t) as [i|e] eqn:Hi.
  - match goal with
    | |- context [binarization_loop luma wide t ?n ?st ?k ?cap] =>
        destruct (binarization_loop_spec t i Hi n st k cap) as (Hop & Hpos & Hsnd);
        [reflexivity|simpl; lia|];
        destruct (binarization_loop luma wide t n st k cap) as [cap1 r]
    end.
    cbn [fst snd pending pos white_pixel_counts black_pixel_counts
         frame_brightness app Nat.add] in Hop, Hpos, Hsnd. subst r.
    destruct (first_error (stream v)); destruct (grabbed (stream v)); simpl; eauto.
  - match goal with
    | |- context [binarization_loop luma wide t ?n ?st ?k ?cap] =>
        destruct (binarization_loop_unconverted t e n st k cap Hi) as (Hop & Hrest);
        [reflexivity|];
        destruct (binarization_loop luma wide t n st k cap) as [cap1 r]
    end.
    cbn [fst snd pending pos] in Hop, Hrest.
    destruct (stream v) as [|[f| |e'] rest]; destruct Hrest as [Hpos Hsnd];
      subst r; cbn [grabbed first_error length]; simpl; eauto.
Qed.

(** A reported rate of 0 frames per second makes the division
    [frame_count / fps] raise, before the [try]: the call raises and the
    capture stays opened. *)
Lemma zero_fps_raises path v fc :
  fs path = Some v ->
  int_of_float (prop_frame_count v) = Ok fc ->
  is_zero (prop_fps v) = true ->
  video_inference_model fs path =
    ({| opened := true; source := Some v; pending := stream v; pos := 0 |},
     Raise ZeroDivisionError).
Proof.
  intros Hfs Hfc Hz.
  unfold video_inference_model, VideoCapture, isOpened.
  rewrite Hfs. cbn [opened negb]. rewrite !get_opened, Hfc.
  destruct (prop_fps v) as [q| |]; try discriminate.
  simpl in Hz. unfold truediv. rewrite Hz. reflexivity.
Qed.

End Host.

(** ** On the concrete host *)

Local Abbreviation demo_binarization :=
  (video_binarization DemoHost.fs DemoHost.luma DemoHost.wide_threshold).
Local Abbreviation demo_binarization_tool :=
  (process_video_binarization DemoHost.fs DemoHost.luma DemoHost.wide_threshold).

Lemma unopenable_path_error_payload_witness :
  DemoHost.fs (str_of "C:\clips\missing.mp4") = None /\
  (exists cap d, inference_video DemoHost.fs (str_of "C:\clips\missing.mp4") = (cap, Ok d)
                 /\ is_Some (d !! "error")) /\
  (exists cap d, demo_binarization_tool (str_of "C:\clips\missing.mp4") 127 = (cap, Ok d)
                 /\ is_Some (d !! "error")).
Proof.
  split; [reflexivity|].
  apply (unopenable_path_error_payload DemoHost.fs DemoHost.luma DemoHost.wide_threshold
           (str_of "C:\clips\missing.mp4") 127).
  reflexivity.
Defined.

Lemma binarization_lists_same_length_witness :
  let run := demo_binarization (str_of "C:\clips\a.mp4") 127 in
  pos (fst run) = 2 /\
  exists ws bs br,
    lookup_stats (payload_of (snd run)) "white_pixel_counts" = Some ws /\
    lookup_stats (payload_of (snd run)) "black_pixel_counts" = Some bs /\
    lookup_stats (payload_of (snd run)) "frame_brightness" = Some br /\
    length ws = pos (fst run) /\ length bs = pos (fst run) /\
    length br = pos (fst run).
Proof.
  split; [vm_compute; reflexivity|].
  apply (binarization_lists_same_length DemoHost.fs DemoHost.luma DemoHost.wide_threshold
           (str_of "C:\clips\a.mp4") 127).
  - vm_compute. reflexivity.
  - vm_compute. reflexivity.
Defined.

Lemma binarization_counts_partition_witness :
  let run := demo_binarization (str_of "C:\clips\a.mp4") 200 in
  exists ws bs,
    lookup_stats (payload_of (snd run)) "white_pixel_counts" = Some (List.map VInt ws) /\
    lookup_stats (payload_of (snd run)) "black_pixel_counts" = Some (List.map VInt bs) /\
    length ws = length (grabbed (stream DemoHost.clip)) /\
    length bs = length (grabbed (stream DemoHost.clip)) /\
    forall i f, grabbed (stream DemoHost.clip) !! i = Some f ->
      exists w b, ws !! i = Some w /\ bs !! i = Some b /\
        (w + b = Z.of_nat (width f) * Z.of_nat (height f))%Z.
Proof.
  apply (binarization_counts_partition DemoHost.fs DemoHost.luma DemoHost.wide_threshold
           (str_of "C:\clips\a.mp4") 200
           (fst (demo_binarization (str_of "C:\clips\a.mp4") 200))).
  - reflexivity.
  - repeat constructor.
  - vm_compute. reflexivity.
Defined.

Example binarization_sample :
  lookup_stats
    (payload_of (snd (demo_binarization (str_of "C:\clips\a.mp4") 100)))
    "white_pixel_counts" = Some [VInt 2; VInt 2] /\
  lookup_stats
    (payload_of (snd (demo_binarization (str_of "C:\clips\a.mp4") 100)))
    "black_pixel_counts" = Some [VInt 2; VInt 2].
Proof. split; vm_compute; reflexivity. Qed.

(** C3: on the clip that reports 0 fps, the inference operation raises
    [ZeroDivisionError]: it returns no payload, hence no duration. *)
Theorem inference_zero_fps_raises :
  DemoHost.fs (str_of "C:\clips\zero.mp4") = Some DemoHost.zero_fps_clip /\
  prop_fps DemoHost.zero_fps_clip = Finite 0 /\
  snd (inference_video DemoHost.fs (str_of "C:\clips\zero.mp4"))
    = Raise ZeroDivisionError.
Proof. repeat split. Qed.

(** C2: on the clip that reports 0 fps, both operations are left by the
    exception of the division, which is outside the [try]: the capture is
    still opened when the call ends. *)
Theorem zero_fps_leaves_capture_opened :
  leaked (fst (inference_video DemoHost.fs (str_of "C:\clips\zero.mp4"))) /\
  snd (inference_video DemoHost.fs (str_of "C:\clips\zero.mp4"))
    = Raise ZeroDivisionError /\
  leaked (fst (demo_binarization_tool (str_of "C:\clips\zero.mp4") 127)) /\
  snd (demo_binarization_tool (str_of "C:\clips\zero.mp4") 127)
    = Raise ZeroDivisionError.
Proof. repeat split. Qed.

(** On the clip whose second read raises, the loop is left by that
    exception and the capture has been released. *)
Example broken_clip_released :
  inference_video DemoHost.fs (str_of "C:\clips\broken.mp4") =
    ({| opened := false; source := Some DemoHost.broken_clip;
        pending := [Grabbed DemoHost.frame2]; pos := 1 |}, Raise CvError).
Proof. reflexivity. Qed.

End ServerFacts.

(* ===================================================================== *)
(** * client.py: the orchestrator, verified *)
(* ===================================================================== *)

Module OrchestratorFacts.

Import Spec Client Orchestrator.

(** ** Counting in traces *)

Lemma tool_invocations_app a b :
  tool_invocations (a ++ b) = tool_invocations a + tool_invocations b.
Proof. unfold tool_invocations. rewrite List.filter_app, length_app. reflexivity. Qed.

Lemma gateway_calls_app a b :
  gateway_calls (a ++ b) = gateway_calls a + gateway_calls b.
Proof. unfold gateway_calls. rewrite List.filter_app, length_app. reflexivity. Qed.

Lemma invokes_only_app n a b :
  invokes_only n (a ++ b) <-> invokes_only n a /\ invokes_only n b.
Proof. apply Forall_app. Qed.


(** ** Running the monadic code *)

Section WithEnv.

Variable E : Env.

Lemma bind_ok {A B} (m : M E A) (k : A -> M E B) s s1 a :
  m s = (s1, Ok a) -> bind E m k s = k a s1.
Proof. unfold bind. intros ->. reflexivity. Qed.

Lemma bind_raise {A B} (m : M E A) (k : A -> M E B) s s1 e :
  m s = (s1, Raise e) -> bind E m k s = (s1, Raise e).
Proof. unfold bind. intros ->. reflexivity. Qed.

Lemma list_tools_run s w1 r :
  session_list_tools E (world s) = (w1, r) ->
  list_tools E s = ({| world := w1; log := EvListTools :: log s |}, r).
Proof. unfold list_tools, bind, emit, external. simpl. intros ->. reflexivity. Qed.

Lemma create_run messages tools s w1 r :
  completions_create E messages tools (world s) = (w1, r) ->
  create E messages tools s =
    ({| world := w1; log := EvGateway messages tools :: log s |}, r).
Proof. unfold create, bind, emit, external. simpl. intros ->. reflexivity. Qed.

Lemma input_run s w1 r :
  console_input E (world s) = (w1, r) ->
  input E s = ({| world := w1; log := EvInput :: log s |}, r).
Proof. unfold input, bind, emit, external. simpl. intros ->. reflexivity. Qed.

(** ** What a computation appends to the log *)

Lemma spec_bind {A B} (m : M E A) (k : A -> M E B)
    (P : list event -> result A -> Prop)
    (Q : A -> list event -> result B -> Prop)
    (R : list event -> result B -> Prop) :
  spec m P -> (forall a, spec (k a) (Q a)) ->
  (forall evs e, P evs (Raise e) -> R evs (Raise e)) ->
  (forall a e1 e2 r, P e1 (Ok a) -> Q a e2 r -> R (e1 ++ e2) r) ->
  spec (bind E m k) R.
Proof.
  intros Hm Hk Hraise Hok s. unfold bind.
  destruct (Hm s) as (e1 & Hl1 & HP).
  destruct (m s) as [s1 [a|e]]; simpl in *.
  - destruct (Hk a s1) as (e2 & Hl2 & HQ).
    exists (e1 ++ e2). split.
    + rewrite Hl2, Hl1, rev_app_distr, app_assoc. reflexivity.
    + eapply Hok; eauto.
  - exists e1. split; auto.
Qed.


Lemma spec_silent {A} (f : state E -> state E * result A) :
  (forall s, log (fst (f s)) = log s) ->
  spec f (fun evs _ => evs = []).
Proof. intros H s. exists []. rewrite H. auto. Qed.

Lemma grows_bind {A B} (m : M E A) (k : A -> M E B) :
  grows m -> (forall a, grows (k a)) -> grows (bind E m k).
Proof.
  intros Hm Hk.
  apply (spec_bind m k (fun _ _ => True) (fun _ _ _ => True)); auto.
Qed.

Lemma grows_ret {A} (a : A) : grows (E := E) (ret a).
Proof. intros s. exists []. auto. Qed.

Lemma grows_raise {A} e : grows (raise E (A := A) e).
Proof. intros s. exists []. auto. Qed.

Lemma grows_lift {A} (r : result A) : grows (lift E r).
Proof. intros s. exists []. auto. Qed.

Lemma grows_emit ev : grows (emit E ev).
Proof. intros s. exists [ev]. auto. Qed.

Lemma grows_external {A} (f : W E -> W E * result A) : grows (external E f).
Proof.
  intros s. exists []. unfold external. destruct (f (world s)); auto.
Qed.

Lemma grows_try_except {A} (body : M E A) handler :
  grows body -> (forall e, grows (handler e)) -> grows (try_except E body handler).
Proof.
  intros Hb Hh s. unfold try_except.
  destruct (Hb s) as (e1 & Hl1 & _).
  destruct (body s) as [s1 [a|e]]; simpl in *; [eauto|].
  destruct (is_Exception e); simpl; [|eauto].
  destruct (Hh e s1) as (e2 & Hl2 & _).
  exists (e1 ++ e2). rewrite Hl2, Hl1, rev_app_distr, app_assoc. auto.
Qed.

Ltac grow :=
  repeat first
    [ apply grows_ret | apply grows_raise | apply grows_lift
    | apply grows_emit | apply grows_external
    | apply grows_bind; [|intros]
    | apply grows_try_except; [|intros]
    | match goal with
      | |- grows (match ?x with _ => _ end) => destruct x
      | |- grows (if ?x then _ else _) => destruct x
      end
    | progress unfold list_tools, create, call_tool, print, input, encode_image,
        item0, item0_opt, text_of, dict_get, dict_get_default, params_of,
        enrich_inference, enrich_binarization, handle_tool_call ].

Lemma grows_process_query q : grows (process_query E q).
Proof. unfold process_query. grow. Qed.

Lemma grows_chat_round : grows (chat_round E).
Proof. unfold chat_round. grow; apply grows_process_query. Qed.

(** ** Counting tool invocations *)

Lemma tool_step_bind {A B} n k1 k2 k (m : M E A) (f : A -> M E B) :
  tool_step n k1 m -> (forall a, tool_step n k2 (f a)) -> k = k1 + k2 ->
  tool_step n k (bind E m f).
Proof.
  intros Hm Hf ->.
  apply (spec_bind m f (quiet n k1) (fun _ => quiet n k2)); auto.
  - intros evs e (Hg & Hi & Hle & _).
    split; auto. split; auto. split; [lia|discriminate].
  - intros a e1 e2 r (Hg1 & Hi1 & _ & Hk1) (Hg2 & Hi2 & Hle2 & Hk2).
    specialize (Hk1 a eq_refl). split; [|split; [|split]].
    + rewrite gateway_calls_app. lia.
    + apply invokes_only_app. auto.
    + rewrite tool_invocations_app. lia.
    + intros b Hb. rewrite tool_invocations_app, (Hk2 b Hb). lia.
Qed.

Lemma quiet_nil {A} n (r : result A) : quiet n 0 [] r.
Proof.
  split; [reflexivity|]. split; [constructor|]. split; [apply Nat.le_0_l|auto].
Qed.

Lemma tool_step_ret {A} n (a : A) : tool_step (E := E) n 0 (ret a).
Proof. intros s. exists []. split; auto. apply quiet_nil. Qed.

Lemma tool_step_raise {A} n k e : tool_step n k (raise E (A := A) e).
Proof.
  intros s. exists []. split; auto.
  split; [reflexivity|]. split; [constructor|].
  split; [apply Nat.le_0_l|discriminate].
Qed.

Lemma tool_step_lift {A} n (r : result A) : tool_step n 0 (lift E r).
Proof. intros s. exists []. split; auto. apply quiet_nil. Qed.

Lemma tool_step_external {A} n (f : W E -> W E * result A) :
  tool_step n 0 (external E f).
Proof.
  intros s. exists []. unfold external. destruct (f (world s)).
  split; auto. apply quiet_nil.
Qed.

Lemma tool_step_emit n ev :
  is_tool_call ev = false -> is_gateway ev = false ->
  tool_step n 0 (emit E ev).
Proof.
  intros Ht Hg s. exists [ev]. split; auto.
  unfold quiet, gateway_calls, tool_invocations. simpl. rewrite Ht, Hg. simpl.
  split; auto. split; [|auto].
  repeat constructor. destruct ev; auto; discriminate.
Qed.

Lemma tool_step_call_tool n arguments : tool_step n 1 (call_tool E n arguments).
Proof.
  intros s. exists [EvToolCall n arguments].
  unfold call_tool, bind, emit, external. simpl.
  destruct (session_call_tool E n arguments (world s)). simpl.
  split; auto. split; [reflexivity|]. split; [repeat constructor|].
  split; [apply Nat.le_refl|reflexivity].
Qed.

Ltac step :=
  first
    [ apply tool_step_ret | apply tool_step_lift | apply tool_step_external
    | apply tool_step_call_tool
    | apply tool_step_emit; reflexivity
    | eapply tool_step_bind; [step | intros; step | reflexivity]
    | apply tool_step_raise ].

Lemma tool_step_encode_image n p : tool_step n 0 (encode_image E p).
Proof. destruct p; simpl; [step|apply tool_step_raise]. Qed.

Lemma tool_step_item0 {A} n (l : list A) : tool_step n 0 (item0 E l).
Proof. destruct l; simpl; step. Qed.

Lemma tool_step_item0_opt {A} n (l : option (list A)) : tool_step n 0 (item0_opt E l).
Proof. destruct l as [l|]; simpl; [apply tool_step_item0|step]. Qed.

Lemma tool_step_text_of n item : tool_step n 0 (text_of E item).
Proof. destruct item; simpl; step. Qed.

Lemma tool_step_dict_get n d key : tool_step n 0 (dict_get E d key).
Proof. destruct d; simpl; step. Qed.

Lemma tool_step_dict_get_default n d key v :
  tool_step n 0 (dict_get_default E d key v).
Proof. destruct d; simpl; step. Qed.

Lemma tool_step_params_of n r : tool_step n 0 (params_of E r).
Proof.
  unfold params_of. destruct (result_content r); [step|].
  eapply tool_step_bind; [apply tool_step_text_of|intros; step|reflexivity].
Qed.

Ltac step' :=
  first
    [ apply tool_step_encode_image | apply tool_step_item0
    | apply tool_step_item0_opt | apply tool_step_text_of
    | apply tool_step_dict_get | apply tool_step_dict_get_default
    | apply tool_step_params_of
    | apply tool_step_ret | apply tool_step_lift | apply tool_step_external
    | apply tool_step_call_tool
    | apply tool_step_emit; reflexivity
    | eapply tool_step_bind; [step' | intros; step' | reflexivity] ].

(** The inference branch invokes the tool once, when it gets that far. *)
Lemma tool_step_enrich_inference q msgs :
  tool_step (str_of "inference_video") 1 (enrich_inference E q msgs).
Proof. unfold enrich_inference. step'. Qed.

(** So does the binarization branch. *)
Lemma tool_step_enrich_binarization q tool_args msgs :
  tool_step (str_of "process_video_binarization") 1
    (enrich_binarization E q tool_args msgs).
Proof. unfold enrich_binarization. step'. Qed.

(** Without a path in the query, either branch stops at [encode_image]
    (the binarization branch possibly earlier, at [tool_args.get]), having
    done nothing. *)
Lemma enrich_inference_no_path q msgs s :
  extract_video_path q = None ->
  enrich_inference E q msgs s = (s, Raise TypeError).
Proof. unfold enrich_inference. intros ->. reflexivity. Qed.

Lemma enrich_binarization_no_path q tool_args msgs s :
  extract_video_path q = None ->
  enrich_binarization E q tool_args msgs s =
    (s, Raise (match tool_args with JObj _ => TypeError | _ => AttributeError end)).
Proof.
  unfold enrich_binarization. intros ->. destruct tool_args; reflexivity.
Qed.

(** ** The handling of a selected tool *)

Lemma handled_bind {A B} n k1 k2 k (m : M E A) (f : A -> M E B) :
  tool_step n k1 m -> (forall a, spec (f a) (handled n k2)) -> k = k1 + k2 ->
  spec (bind E m f) (handled n k).
Proof.
  intros Hm Hf ->.
  apply (spec_bind m f (quiet n k1) (fun _ => handled n k2)); auto.
  - intros evs e (Hg & Hi & Hle & _). exists evs, [].
    rewrite app_nil_r. split; auto. split; auto. split; auto.
    split; [lia|]. left. eauto.
  - intros a e1 e2 r (Hg1 & Hi1 & _ & Hk1)
      (mid & tail & -> & Hg2 & Hi2 & Hle2 & Hcase).
    specialize (Hk1 a eq_refl). exists (e1 ++ mid), tail.
    split; [apply app_assoc|]. split; [rewrite gateway_calls_app; lia|].
    split; [apply invokes_only_app; auto|].
    rewrite tool_invocations_app. split; [lia|].
    destruct Hcase as [Hc|[Hc Ht]]; [left; auto|right]. split; [lia|auto].
Qed.

Lemma handled_final {B} n msgs (g : response -> M E B) :
  (forall resp, spec (g resp) (fun evs _ => evs = [])) ->
  spec (bind E (create E msgs None) g) (handled n 0).
Proof.
  intros Hg s. unfold create, bind, emit, external. cbn [world log fst snd].
  destruct (completions_create E msgs None (world s)) as [w' [resp|e]].
  - destruct (Hg resp {| world := w'; log := EvGateway msgs None :: log s |})
      as (evs & Hl & ->).
    exists [EvGateway msgs None]. split; [rewrite Hl; reflexivity|].
    exists [], [EvGateway msgs None]. split; auto. split; auto.
    split; [constructor|]. split; auto. right. eauto.
  - exists [EvGateway msgs None]. split; [reflexivity|].
    exists [], [EvGateway msgs None]. split; auto. split; auto.
    split; [constructor|]. split; auto. right. simpl. eauto.
Qed.

Lemma final_answer_silent (resp : response) :
  spec (bind E (item0 E (choices resp))
          (fun final => ret (E := E) (content (message_ final))))
       (fun evs _ => evs = []).
Proof.
  apply spec_silent. intros s. unfold bind, item0.
  destruct (choices resp); reflexivity.
Qed.

Ltac handle :=
  first
    [ apply handled_final; intros; apply final_answer_silent
    | eapply handled_bind; [step' | intros; handle | reflexivity] ].

Lemma streq_true a b : streq a b = true -> a = b.
Proof. unfold streq. apply bool_decide_eq_true_1. Qed.

Lemma video_tool_names_differ n :
  streq n (str_of "inference_video") = true ->
  streq n (str_of "process_video_binarization") = true -> False.
Proof.
  intros H1 H2. apply streq_true in H1, H2. rewrite H1 in H2. discriminate.
Qed.

(** Whatever the outside answers, the handling of a selected tool invokes
    that tool only: twice for the two video tools (the enrichment call with
    the extracted path, then the call with the model's own arguments), once
    for any other; and any gateway call comes after these. *)
Lemma spec_handle_tool_call q msgs c tc tool_args :
  spec (handle_tool_call E q msgs c tc tool_args)
       (handled (function_name tc)
                (if is_video_tool (function_name tc) then 2 else 1)).
Proof.
  unfold handle_tool_call, is_video_tool.
  destruct (streq (function_name tc) (str_of "inference_video")) eqn:HA;
    destruct (streq (function_name tc) (str_of "process_video_binarization")) eqn:HB;
    cbn [orb].
  - destruct (video_tool_names_differ _ HA HB).
  - apply streq_true in HA. rewrite HA.
    eapply handled_bind; [apply tool_step_enrich_inference|intros; handle|reflexivity].
  - apply streq_true in HB. rewrite HB.
    eapply handled_bind; [step'|intros|reflexivity].
    eapply handled_bind; [apply tool_step_enrich_binarization|intros; handle|reflexivity].
  - handle.
Qed.

(** With a video tool selected and no path in the query, the handling
    stops before any invocation. *)
Lemma handle_tool_call_no_path q msgs c tc tool_args s :
  is_video_tool (function_name tc) = true ->
  extract_video_path q = None ->
  handle_tool_call E q msgs c tc tool_args s =
    (s, Raise (if streq (function_name tc) (str_of "inference_video")
               then TypeError
               else match tool_args with
                    | JObj _ => TypeError
                    | _ => AttributeError
                    end)).
Proof.
  unfold handle_tool_call, is_video_tool. intros Hv Hp.
  destruct (streq (function_name tc) (str_of "inference_video")) eqn:HA.
  - erewrite bind_raise; [reflexivity|]. apply enrich_inference_no_path; auto.
  - cbn [orb] in Hv. rewrite Hv.
    erewrite bind_ok; [|reflexivity].
    erewrite bind_raise; [reflexivity|]. apply enrich_binarization_no_path; auto.
Qed.

(** ** Which invocations are issued *)





















(** ** What a computation returns *)






(** ** The handling of a selected tool, invocation by invocation *)






(** The opening of [process_query] when the gateway selects a tool. *)
Lemma process_query_selects s w1 w2 q tools resp c cs tc tcs :
  session_list_tools E (world s) = (w1, Ok tools) ->
  completions_create E [UserText q] (Some tools) w1 = (w2, Ok resp) ->
  choices resp = c :: cs ->
  finish_reason c = str_of "tool_calls" ->
  tool_calls (message_ c) = Some (tc :: tcs) ->
  process_query E q s =
    bind E (lift E (json_loads E (function_arguments tc)))
      (fun tool_args => handle_tool_call E q [UserText q] c tc tool_args)
      {| world := w2;
         log := EvGateway [UserText q] (Some tools)
                :: EvPrint (PToolDescription tools) :: EvListTools :: log s |}.
Proof.
  intros Hlist Hcreate Hchoices Hfinish Hcalls. unfold process_query.
  erewrite bind_ok; [|apply list_tools_run; eassumption].
  erewrite bind_ok; [|reflexivity].
  erewrite bind_ok; [|apply create_run; cbn [world]; eassumption].
  rewrite Hchoices. erewrite bind_ok; [|reflexivity].
  rewrite Hfinish.
  replace (streq (str_of "tool_calls") (str_of "tool_calls")) with true by reflexivity.
  rewrite Hcalls. erewrite bind_ok; [|reflexivity].
  reflexivity.
Qed.

Lemma trace_appended (s s' : state E) evs :
  log s' = rev evs ++ log s -> trace s' = trace s ++ evs.
Proof.
  unfold trace. intros ->. rewrite rev_app_distr, rev_involutive. reflexivity.
Qed.

Lemma bind_extends {A B} (m : M E A) (k : A -> M E B) s :
  (forall a, grows (k a)) ->
  exists evs, log (fst (bind E m k s)) = rev evs ++ log (fst (m s)).
Proof.
  intros Hk. unfold bind. destruct (m s) as [s1 [a|e]]; simpl.
  - destruct (Hk a s1) as (evs & Hl & _). eauto.
  - exists []. reflexivity.
Qed.

Lemma try_except_extends {A} (body : M E A) handler s :
  (forall e, grows (handler e)) ->
  exists evs, log (fst (try_except E body handler s)) = rev evs ++ log (fst (body s)).
Proof.
  intros Hh. unfold try_except. destruct (body s) as [s1 [a|e]]; simpl.
  - exists []. reflexivity.
  - destruct (is_Exception e); [|exists []; reflexivity].
    destruct (Hh e s1) as (evs & Hl & _). eauto.
Qed.

(** Whatever came before, [process_query] opens with the tool listing and
    a gateway call whose conversation is the new user turn alone. *)
Lemma process_query_opening q s w1 tools :
  session_list_tools E (world s) = (w1, Ok tools) ->
  exists rest,
    trace (fst (process_query E q s)) =
    trace s ++ [EvListTools; EvPrint (PToolDescription tools);
                EvGateway [UserText q] (Some tools)] ++ rest.
Proof.
  intros Hlist. unfold process_query.
  erewrite bind_ok; [|apply list_tools_run; eassumption].
  erewrite bind_ok; [|reflexivity].
  match goal with
  | |- context [bind E (create E ?m ?t) ?k ?s0] =>
      assert (grows (fun s => bind E (external E (completions_create E m t)) k s)) as Hg
  end.
  { grow. }
  match goal with
  | |- context [bind E (create E ?m ?t) ?k ?s0] =>
      destruct (Hg {| world := world s0; log := EvGateway m t :: log s0 |})
        as (rest & Hl & _)
  end.
  exists rest. unfold trace.
  etransitivity; [apply f_equal; exact Hl|].
  cbn [log]. rewrite rev_app_distr, rev_involutive. cbn [rev app].
  rewrite <- !app_assoc. reflexivity.
Qed.

(** ** The claims about the orchestrator *)



(** Without a path, the round of the loop in which a video tool is
    selected ends in an error line. *)
Lemma no_path_round (s : state E) (w0 w1 w2 : W E) (line : pystr)
    (tools : list tool) (resp : response) (c : choice) (cs : list choice)
    (tc : tool_call) (tcs : list tool_call) (tool_args : json) :
  console_input E (world s) = (w0, Ok line) ->
  is_quit (strip line) = false ->
  session_list_tools E w0 = (w1, Ok tools) ->
  completions_create E [UserText (strip line)] (Some tools) w1 = (w2, Ok resp) ->
  choices resp = c :: cs ->
  finish_reason c = str_of "tool_calls" ->
  tool_calls (message_ c) = Some (tc :: tcs) ->
  json_loads E (function_arguments tc) = Ok tool_args ->
  is_video_tool (function_name tc) = true ->
  extract_video_path (strip line) = None ->
  let e := if streq (function_name tc) (str_of "inference_video") then TypeError
           else match tool_args with
                | JObj _ => TypeError
                | _ => AttributeError
                end in
  chat_round E s =
    ({| world := w2;
        log := [EvPrint (PError e);
                EvGateway [UserText (strip line)] (Some tools);
                EvPrint (PToolDescription tools); EvListTools; EvInput] ++ log s |},
     Ok true).
Proof.
  intros Hin Hquit Hlist Hcreate Hchoices Hfinish Hcalls Hjson Hvideo Hpath e.
  unfold chat_round, try_except.
  erewrite bind_ok; [|apply input_run; eassumption].
  rewrite Hquit.
  erewrite bind_raise; cycle 1.
  { erewrite process_query_selects; try eassumption.
    rewrite Hjson. erewrite bind_ok; [|reflexivity].
    apply handle_tool_call_no_path; auto. }
  fold e.
  assert (is_Exception e = true) as ->
    by (subst e; destruct (streq _ _); [|destruct tool_args]; reflexivity).
  reflexivity.
Qed.

(** C8, amended: when a video tool is selected (with arguments that parse)
    and no video path can be extracted from the query, the null path never
    reaches the Tool Host.  [process_query] raises after its one gateway
    call and before any invocation: [TypeError], from the [open(None)] of
    [encode_image], for [inference_video] and for a binarization whose
    arguments are an object; [AttributeError], from [tool_args.get], for a
    binarization whose arguments are anything else.  The round of
    [chat_loop] catches the exception, prints it as one error line and
    goes on to the next round. *)
Theorem no_path_fails_before_tool_call
    (w w0 w1 w2 : W E) (line : pystr) (tools : list tool) (resp : response)
    (c : choice) (cs : list choice) (tc : tool_call) (tcs : list tool_call)
    (tool_args : json) (n : nat) :
  console_input E w = (w0, Ok line) ->
  is_quit (strip line) = false ->
  session_list_tools E w0 = (w1, Ok tools) ->
  completions_create E [UserText (strip line)] (Some tools) w1 = (w2, Ok resp) ->
  choices resp = c :: cs ->
  finish_reason c = str_of "tool_calls" ->
  tool_calls (message_ c) = Some (tc :: tcs) ->
  json_loads E (function_arguments tc) = Ok tool_args ->
  is_video_tool (function_name tc) = true ->
  extract_video_path (strip line) = None ->
  let e := if streq (function_name tc) (str_of "inference_video") then TypeError
           else match tool_args with
                | JObj _ => TypeError
                | _ => AttributeError
                end in
  let opening := [EvListTools; EvPrint (PToolDescription tools);
                  EvGateway [UserText (strip line)] (Some tools)] in
  process_query E (strip line) (start w0)
    = ({| world := w2; log := rev opening |}, Raise e) /\
  tool_invocations opening = 0 /\
  gateway_calls opening = 1 /\
  chat_round E (start w)
    = ({| world := w2; log := rev ([EvInput] ++ opening ++ [EvPrint (PError e)]) |},
       Ok true) /\
  chat_loop E (S n) (start w)
    = while_True E n (chat_round E)
        {| world := w2;
           log := rev ([EvPrint PBanner; EvInput] ++ opening
                       ++ [EvPrint (PError e)]) |}.
Proof.
  intros Hin Hquit Hlist Hcreate Hchoices Hfinish Hcalls Hjson Hvideo Hpath e opening.
  split; [|split; [reflexivity|split; [reflexivity|split]]].
  - erewrite process_query_selects; try eassumption.
    rewrite Hjson. erewrite bind_ok; [|reflexivity].
    apply handle_tool_call_no_path; auto.
  - apply (no_path_round (start w) w0 w1 w2 line tools resp c cs tc tcs tool_args);
      assumption.
  - unfold chat_loop. erewrite bind_ok; [|reflexivity].
    cbn [while_True]. erewrite bind_ok; cycle 1.
    { apply (no_path_round _ w0 w1 w2 line tools resp c cs tc tcs tool_args);
        assumption. }
    reflexivity.
Qed.

(** C9: a tool call whose arguments are not valid JSON makes [json.loads]
    raise; the round of [chat_loop] catches it, prints one error line and
    goes on.  That round has made one gateway call and no tool call
    (nothing is retried), and the next round, whatever it reads, opens with
    a gateway call whose conversation is the new user turn alone. *)
Theorem malformed_arguments_reported
    (w w0 w1 w2 : W E) (line : pystr) (tools : list tool) (resp : response)
    (c : choice) (cs : list choice) (tc : tool_call) (tcs : list tool_call)
    (n : nat) :
  console_input E w = (w0, Ok line) ->
  is_quit (strip line) = false ->
  session_list_tools E w0 = (w1, Ok tools) ->
  completions_create E [UserText (strip line)] (Some tools) w1 = (w2, Ok resp) ->
  choices resp = c :: cs ->
  finish_reason c = str_of "tool_calls" ->
  tool_calls (message_ c) = Some (tc :: tcs) ->
  json_loads E (function_arguments tc) = Raise JSONDecodeError ->
  let s1 : state E :=
    {| world := w2;
       log := [EvPrint (PError JSONDecodeError);
               EvGateway [UserText (strip line)] (Some tools);
               EvPrint (PToolDescription tools); EvListTools; EvInput] |} in
  chat_round E (start w) = (s1, Ok true) /\
  while_True E (S n) (chat_round E) (start w) = while_True E n (chat_round E) s1 /\
  chat_loop E (S n) (start w)
    = while_True E n (chat_round E)
        {| world := w2; log := log s1 ++ [EvPrint PBanner] |} /\
  forall line' w0' w1' tools',
    console_input E w2 = (w0', Ok line') ->
    is_quit (strip line') = false ->
    session_list_tools E w0' = (w1', Ok tools') ->
    exists rest,
      trace (fst (chat_round E s1)) =
      trace s1 ++ [EvInput; EvListTools; EvPrint (PToolDescription tools');
                   EvGateway [UserText (strip line')] (Some tools')] ++ rest.
Proof.
  intros Hin Hquit Hlist Hcreate Hchoices Hfinish Hcalls Hjson s1.
  assert (forall s : state E, world s = w ->
            chat_round E s = ({| world := w2; log := log s1 ++ log s |}, Ok true))
    as Hround.
  { intros s Hs. unfold chat_round, try_except.
    erewrite bind_ok; [|apply input_run; rewrite Hs; eassumption].
    rewrite Hquit.
    erewrite bind_raise; cycle 1.
    { erewrite process_query_selects; try eassumption.
      rewrite Hjson. reflexivity. }
    reflexivity. }
  split; [apply (Hround (start w)); reflexivity|]. split; [|split].
  - cbn [while_True]. erewrite bind_ok; [|apply (Hround (start w)); reflexivity].
    reflexivity.
  - unfold chat_loop. erewrite bind_ok; [|reflexivity].
    cbn [while_True]. erewrite bind_ok; [|apply Hround; reflexivity].
    reflexivity.
  - intros line' w0' w1' tools' Hin' Hquit' Hlist'.
    unfold chat_round.
    match goal with
    | |- context [try_except E ?body ?h s1] =>
        destruct (try_except_extends body h s1) as (e1 & Hl1);
        [intros; grow|]; apply trace_appended in Hl1; rewrite Hl1; clear Hl1
    end.
    erewrite bind_ok; [|apply input_run; eassumption].
    rewrite Hquit'.
    match goal with
    | |- context [bind E (process_query E ?q) ?k ?s] =>
        destruct (bind_extends (process_query E q) k s) as (e2 & Hl2);
        [intros; grow|]; apply trace_appended in Hl2; rewrite Hl2; clear Hl2;
        destruct (process_query_opening q s w1' tools' Hlist') as (e3 & Hl3);
        rewrite Hl3
    end.
    exists (e3 ++ e2 ++ e1). unfold trace. cbn [log rev app].
    rewrite <- !app_assoc. reflexivity.
Qed.

End WithEnv.

(** ** On the concrete outside *)



(** For a tool that is not a video tool there is the one call with the
    model's own arguments. *)
Example other_tool_invoked_once :
  let E := DemoEnv.env (DemoEnv.selects (str_of "list_files") (str_of "{}")) in
  let run := process_query E (str_of "what is in C:\videos") (start (E := E) []) in
  snd run = Ok (Some (str_of "done")) /\
  invocations (trace (fst run)) = [EvToolCall (str_of "list_files") (JObj ∅)].
Proof. vm_compute. repeat split. Qed.

(** For the binarization the enrichment call carries the path and the
    threshold found among the model's arguments. *)
Example binarization_invoked_twice :
  let E := DemoEnv.env (DemoEnv.selects (str_of "process_video_binarization")
                          DemoEnv.threshold_200) in
  let run := process_query E (str_of "binarize C:\videos\clip.mp4")
               (start (E := E) []) in
  snd run = Ok (Some (str_of "done")) /\
  invocations (trace (fst run)) =
    [EvToolCall (str_of "process_video_binarization")
       (JObj (<[ str_of "path" := JStr (str_of "C:\videos\clip.mp4") ]>
              {[ str_of "threshold" := JInt 200 ]}));
     EvToolCall (str_of "process_video_binarization")
       (JObj {[ str_of "threshold" := JInt 200 ]})].
Proof. vm_compute. repeat split. Qed.

(** C8, as stated, fails: for the query [describe my video], on which the
    gateway selects [inference_video], no path can be extracted, and
    [process_query] raises [TypeError] without any Tool Host invocation:
    the null path is not propagated into a tool call. *)
Lemma null_path_not_propagated_counterexample :
  let E := DemoEnv.env (DemoEnv.selects (str_of "inference_video") (str_of "{}")) in
  let run := process_query E (str_of "describe my video") (start (E := E) []) in
  extract_video_path (str_of "describe my video") = None /\
  snd run = Raise TypeError /\
  tool_invocations (trace (fst run)) = 0.
Proof. vm_compute. repeat split. Qed.

Lemma no_path_fails_before_tool_call_witness :
  let name := str_of "process_video_binarization" in
  let E := DemoEnv.env (DemoEnv.selects name DemoEnv.threshold_200) in
  let q := str_of "binarize my video" in
  let opening := [EvListTools; EvPrint (PToolDescription DemoEnv.tools);
                  EvGateway [UserText q] (Some DemoEnv.tools)] in
  process_query E q (start (E := E) [])
    = ({| world := ([] : W E); log := rev opening |}, Raise TypeError) /\
  tool_invocations opening = 0 /\
  gateway_calls opening = 1 /\
  chat_round E (start (E := E) [str_of " binarize my video "])
    = ({| world := ([] : W E);
          log := rev ([EvInput] ++ opening ++ [EvPrint (PError TypeError)]) |},
       Ok true) /\
  chat_loop E 3 (start (E := E) [str_of " binarize my video "])
    = while_True E 2 (chat_round E)
        {| world := ([] : W E);
           log := rev ([EvPrint PBanner; EvInput] ++ opening
                       ++ [EvPrint (PError TypeError)]) |}.
Proof.
  apply (no_path_fails_before_tool_call
           (DemoEnv.env (DemoEnv.selects (str_of "process_video_binarization")
                           DemoEnv.threshold_200))
           [str_of " binarize my video "] [] [] []
           (str_of " binarize my video ") DemoEnv.tools
           (DemoEnv.selects (str_of "process_video_binarization") DemoEnv.threshold_200)
           (DemoEnv.the_choice (str_of "process_video_binarization")
              DemoEnv.threshold_200) []
           (DemoEnv.the_call (str_of "process_video_binarization")
              DemoEnv.threshold_200) []
           (JObj {[ str_of "threshold" := JInt 200 ]}) 2);
    reflexivity.
Defined.

(** Binarization arguments that are a JSON array: [tool_args.get] raises
    [AttributeError], again before any invocation. *)
Example array_arguments_attribute_error :
  let E := DemoEnv.env (DemoEnv.selects (str_of "process_video_binarization")
                          (str_of "[]")) in
  let run := process_query E (str_of "binarize my video") (start (E := E) []) in
  snd run = Raise AttributeError /\
  invocations (trace (fst run)) = [].
Proof. vm_compute. repeat split. Qed.

Lemma malformed_arguments_reported_witness :
  let E := DemoEnv.env (DemoEnv.selects (str_of "inference_video") (str_of "{path: ")) in
  let q := str_of "describe C:\a.mp4" in
  let w2 : W E := [str_of "and now?"] in
  let s1 : state E :=
    {| world := w2;
       log := [EvPrint (PError JSONDecodeError);
               EvGateway [UserText q] (Some DemoEnv.tools);
               EvPrint (PToolDescription DemoEnv.tools); EvListTools; EvInput] |} in
  chat_round E (start (E := E) [str_of " describe C:\a.mp4 "; str_of "and now?"])
    = (s1, Ok true) /\
  while_True E 2 (chat_round E)
    (start (E := E) [str_of " describe C:\a.mp4 "; str_of "and now?"])
    = while_True E 1 (chat_round E) s1 /\
  chat_loop E 2 (start (E := E) [str_of " describe C:\a.mp4 "; str_of "and now?"])
    = while_True E 1 (chat_round E)
        {| world := w2; log := log s1 ++ [EvPrint PBanner] |} /\
  forall line' w0' w1' tools',
    console_input E w2 = (w0', Ok line') ->
    is_quit (strip line') = false ->
    session_list_tools E w0' = (w1', Ok tools') ->
    exists rest,
      trace (fst (chat_round E s1)) =
      trace s1 ++ [EvInput; EvListTools; EvPrint (PToolDescription tools');
                   EvGateway [UserText (strip line')] (Some tools')] ++ rest.
Proof.
  apply (malformed_arguments_reported
           (DemoEnv.env (DemoEnv.selects (str_of "inference_video") (str_of "{path: ")))
           [str_of " describe C:\a.mp4 "; str_of "and now?"]
           [str_of "and now?"] [str_of "and now?"] [str_of "and now?"]
           (str_of " describe C:\a.mp4 ") DemoEnv.tools
           (DemoEnv.selects (str_of "inference_video") (str_of "{path: "))
           (DemoEnv.the_choice (str_of "inference_video") (str_of "{path: ")) []
           (DemoEnv.the_call (str_of "inference_video") (str_of "{path: ")) [] 1);
    reflexivity.
Defined.

End OrchestratorFacts.

(* ===================================================================== *)
(** * server.py: further properties *)
(* ===================================================================== *)

Module HostFacts.

Import Spec Server ServerFacts.

Section Host.

Variable fs : pystr -> option video.
Variable luma : bgr -> Z.
Variable wide : Z -> result Z.

(** The shape of every non-error result of [video_inference_model]. *)
Lemma video_inference_success path cap' d :
  video_inference_model fs path = (cap', Ok d) ->
  d !! "error" = None ->
  exists v fc,
    fs path = Some v /\
    int_of_float (prop_frame_count v) = Ok fc /\
    opened cap' = false /\
    pos cap' = length (grabbed (stream v)) /\
    d !! "fps" = Some (VFloat (prop_fps v)) /\
    d !! "frame_count" = Some (VInt fc) /\
    (exists dur, truediv fc (prop_fps v) = Ok dur /\ d !! "duration" = Some (VFloat dur)) /\
    lookup_list d "color_analysis"
      = Some (List.map (fun c => VList (List.map VFloat c))
                       (List.map mean_color (grabbed (stream v)))).
Proof.
  unfold video_inference_model, VideoCapture, isOpened.
  destruct (fs path) as [v|] eqn:Hfs; cbn [opened negb].
  - rewrite !get_opened.
    destruct (int_of_float (prop_frame_count v)) as [fc|] eqn:Hfc; [|discriminate].
    destruct (truediv fc (prop_fps v)) as [dur|] eqn:Hdur; [|discriminate].
    unfold try_finally_release. cbn [pending].
    match goal with
    | |- context [inference_loop ?n ?acc ?cap] =>
        destruct (inference_loop_spec n acc cap) as (Hop & Hpos & Hsnd);
        [reflexivity|simpl; lia|];
        destruct (inference_loop n acc cap) as [cap1 r]
    end.
    cbn [fst snd pending pos app Nat.add] in Hop, Hpos, Hsnd.
    subst r. destruct (first_error (stream v)); [discriminate|].
    intros [= <- <-] _. exists v, fc.
    split; [reflexivity|]. split; [exact Hfc|]. split; [reflexivity|].
    split; [exact Hpos|].
    split; [apply lookup_insert_eq|].
    split; [rewrite lookup_insert_ne by discriminate; apply lookup_insert_eq|].
    split.
    + exists dur. split; [exact Hdur|].
      rewrite !lookup_insert_ne by discriminate. apply lookup_insert_eq.
    + unfold lookup_list.
      rewrite !lookup_insert_ne by discriminate. rewrite lookup_singleton_eq.
      reflexivity.
  - intros [= <- <-] He. exfalso. revert He. unfold error_payload.
    rewrite lookup_singleton_eq. discriminate.
Qed.

(** X1: Every non-error result of the inference operation lists, in decode
    order, one colour triple per frame the capture has delivered, and
    reports the container's rate and frame count with their quotient as
    duration. *)
Theorem inference_lists_every_frame (path : pystr) (cap' : capture) (d : payload) :
  video_inference_model fs path = (cap', Ok d) ->
  d !! "error" = None ->
  exists v colors,
    fs path = Some v /\
    lookup_list d "color_analysis"
      = Some (List.map (fun c => VList (List.map VFloat c)) colors) /\
    colors = List.map mean_color (grabbed (stream v)) /\
    length colors = pos cap' /\
    Forall (fun c => length c = 3) colors /\
    d !! "fps" = Some (VFloat (prop_fps v)).
Proof.
  intros Hrun Herr.
  destruct (video_inference_success _ _ _ Hrun Herr)
    as (v & fc & Hfs & _ & _ & Hpos & Hfps & _ & _ & Hcol).
  exists v, (List.map mean_color (grabbed (stream v))).
  split; auto. split; auto. split; auto.
  split; [rewrite length_map; auto|]. split; auto.
  apply Forall_forall. intros c Hc. apply list_elem_of_In in Hc.
  apply in_map_iff in Hc as (f & <- & _). reflexivity.
Qed.

(** X2: Once the metadata has been read, the inference operation reaches its
    loop, and the capture is released however the loop ends (end of
    stream, failed read, or a read that raises); the call then raises the
    exception of the first raising read, or returns a payload. *)
Theorem inference_released_after_loop (path : pystr) (v : video) (fc : Z)
    (dur : pyfloat) :
  fs path = Some v ->
  int_of_float (prop_frame_count v) = Ok fc ->
  truediv fc (prop_fps v) = Ok dur ->
  opened (fst (video_inference_model fs path)) = false /\
  pos (fst (video_inference_model fs path)) = length (grabbed (stream v)) /\
  match first_error (stream v) with
  | Some e => snd (video_inference_model fs path) = Raise e
  | None => exists d, snd (video_inference_model fs path) = Ok d
  end.
Proof. apply inference_releases_after_metadata. Qed.

(** X3: Once the metadata has been read, the binarize operation releases
    the capture however its loop ends: at the end of the stream, on a
    failed read, on a read that raises, or on a threshold that
    [cv2.threshold] cannot convert, which makes the first frame read the
    last.  In the last case the call raises that exception; otherwise it
    raises the exception of the first raising read or returns a success
    payload, having read the frames before the first failed read. *)
Theorem binarization_released_after_loop (path : pystr) (threshold : Z)
    (v : video) (fc w h : Z) (dur : pyfloat) :
  fs path = Some v ->
  int_of_float (prop_frame_count v) = Ok fc ->
  int_of_float (prop_frame_width v) = Ok w ->
  int_of_float (prop_frame_height v) = Ok h ->
  truediv fc (prop_fps v) = Ok dur ->
  opened (fst (video_binarization fs luma wide path threshold)) = false /\
  match grabbed (stream v), int_threshold wide threshold with
  | _ :: _, Raise e =>
      pos (fst (video_binarization fs luma wide path threshold)) = 1 /\
      snd (video_binarization fs luma wide path threshold) = Raise e
  | _, _ =>
      pos (fst (video_binarization fs luma wide path threshold))
        = length (grabbed (stream v)) /\
      match first_error (stream v) with
      | Some e => snd (video_binarization fs luma wide path threshold) = Raise e
      | None =>
          exists d, snd (video_binarization fs luma wide path threshold) = Ok d /\
                    d !! "success" = Some (VBool true)
      end
  end.
Proof. apply binarization_releases_after_metadata. Qed.

(** X4: A returned payload has the key [error] exactly when the file could not
    be opened; the binarize payload has [success] exactly when it could.
    So the two kinds of payload are never confused. *)
Theorem error_key_iff_unopenable (path : pystr) :
  (forall cap d, inference_video fs path = (cap, Ok d) ->
     (is_Some (d !! "error") <-> fs path = None)) /\
  (forall threshold cap d,
     process_video_binarization fs luma wide path threshold = (cap, Ok d) ->
     (is_Some (d !! "error") <-> fs path = None) /\
     (d !! "success" = Some (VBool true) <-> is_Some (fs path))).
Proof.
  split.
  - intros cap d. unfold inference_video, video_inference_model, VideoCapture, isOpened.
    destruct (fs path) as [v|] eqn:Hfs; cbn [opened negb].
    + destruct (int_of_float _); [|discriminate].
      destruct (truediv _ _); [|discriminate].
      destruct (try_finally_release _ _) as [c [ca|e]]; [|discriminate].
      intros [= <- <-]. split; [|discriminate].
      rewrite !lookup_insert_ne by discriminate.
      rewrite lookup_singleton_ne by discriminate. intros [x Hx]. discriminate.
    + intros [= <- <-]. split; intros _; [reflexivity|apply error_payload_has_error].
  - intros threshold cap d.
    unfold process_video_binarization, video_binarization, VideoCapture, isOpened.
    destruct (fs path) as [v|] eqn:Hfs; cbn [opened negb].
    + destruct (int_of_float _); [|discriminate].
      destruct (int_of_float _); [|discriminate].
      destruct (int_of_float _); [|discriminate].
      destruct (truediv _ _); [|discriminate].
      destruct (try_finally_release _ _) as [c [[st k]|e]]; [|discriminate].
      intros [= <- <-]. split; split.
      * rewrite !lookup_insert_ne by discriminate.
        rewrite lookup_singleton_ne by discriminate. intros [x Hx]. discriminate.
      * discriminate.
      * eauto.
      * intros _. rewrite !lookup_insert_ne by discriminate. apply lookup_insert_eq.
    + intros [= <- <-]. split; split.
      * intros _. reflexivity.
      * intros _. apply error_payload_has_error.
      * rewrite error_payload_no_success. discriminate.
      * intros [x Hx]. discriminate.
Qed.

(** X6: Raising the threshold, within the range of a 32-bit [int], can only
    turn white pixels black: when the binarize operation succeeds on a
    file with one threshold it succeeds with any other, and with the
    higher threshold the white count recorded for each frame is no
    larger, the black count no smaller. *)
Theorem white_counts_antitone (path : pystr) (t1 t2 : Z) (cap1 : capture)
    (d1 : payload) :
  (- 2 ^ 31 <= t1)%Z -> (t1 <= t2)%Z -> (t2 < 2 ^ 31)%Z ->
  video_binarization fs luma wide path t1 = (cap1, Ok d1) ->
  d1 !! "success" = Some (VBool true) ->
  exists cap2 d2 ws1 ws2 bs1 bs2,
    video_binarization fs luma wide path t2 = (cap2, Ok d2) /\
    d2 !! "success" = Some (VBool true) /\
    lookup_stats d1 "white_pixel_counts" = Some (List.map VInt ws1) /\
    lookup_stats d2 "white_pixel_counts" = Some (List.map VInt ws2) /\
    lookup_stats d1 "black_pixel_counts" = Some (List.map VInt bs1) /\
    lookup_stats d2 "black_pixel_counts" = Some (List.map VInt bs2) /\
    Forall2 (fun high low => (high <= low)%Z) ws2 ws1 /\
    Forall2 (fun low high => (low <= high)%Z) bs1 bs2.
Proof.
  intros Hlo Hle Hhi Hrun1 Hok1.
  assert (int_threshold wide t1 = Ok t1) as Hi1 by (apply int_threshold_exact; lia).
  assert (int_threshold wide t2 = Ok t2) as Hi2 by (apply int_threshold_exact; lia).
  destruct (video_binarization_success fs luma wide _ _ _ _ Hrun1 Hok1)
    as (v & Hfs & _ & _ & _ & Hw1 & Hb1 & _).
  rewrite Hi1 in Hw1, Hb1. cbn [threshold_used] in Hw1, Hb1.
  assert (exists fc w h dur,
            int_of_float (prop_frame_count v) = Ok fc /\
            int_of_float (prop_frame_width v) = Ok w /\
            int_of_float (prop_frame_height v) = Ok h /\
            truediv fc (prop_fps v) = Ok dur /\
            first_error (stream v) = None) as (fc & w & h & dur & Hfc & Hwd & Hh & Hdur & Hne).
  { revert Hrun1. unfold video_binarization, VideoCapture, isOpened.
    rewrite Hfs. cbn [opened negb]. rewrite !get_opened.
    destruct (int_of_float (prop_frame_count v)) as [fc|]; [|discriminate].
    destruct (int_of_float (prop_frame_width v)) as [w|]; [|discriminate].
    destruct (int_of_float (prop_frame_height v)) as [h|]; [|discriminate].
    destruct (truediv fc (prop_fps v)) as [dur|] eqn:Hdur; [|discriminate].
    unfold try_finally_release. cbn [pending].
    match goal with
    | |- context [binarization_loop luma wide t1 ?n ?st ?k ?cap] =>
        destruct (binarization_loop_spec luma wide t1 t1 Hi1 n st k cap)
          as (_ & _ & Hsnd); [reflexivity|simpl; lia|];
        destruct (binarization_loop luma wide t1 n st k cap) as [cap0 r]
    end.
    cbn [snd pending] in Hsnd. subst r.
    destruct (first_error (stream v)); [discriminate|].
    intros _. exists fc, w, h, dur. repeat split; auto. }
  destruct (binarization_releases_after_metadata fs luma wide path t2 v fc w h dur
              Hfs Hfc Hwd Hh Hdur) as (_ & Hcase).
  rewrite Hi2, Hne in Hcase.
  assert (exists d2, snd (video_binarization fs luma wide path t2) = Ok d2 /\
                     d2 !! "success" = Some (VBool true)) as (d2 & Hrun2 & Hok2)
    by (destruct (grabbed (stream v)); destruct Hcase as [_ H]; exact H).
  destruct (video_binarization fs luma wide path t2) as [cap2 r2] eqn:Hrun2'.
  cbn [snd] in Hrun2. subst r2.
  destruct (video_binarization_success fs luma wide _ _ _ _ Hrun2' Hok2)
    as (v' & Hfs' & _ & _ & _ & Hw2 & Hb2 & _).
  rewrite Hfs in Hfs'. injection Hfs' as <-.
  rewrite Hi2 in Hw2, Hb2. cbn [threshold_used] in Hw2, Hb2.
  exists cap2, d2. eexists _, _, _, _.
  split; [reflexivity|]. split; [exact Hok2|].
  split; [exact Hw1|]. split; [exact Hw2|]. split; [exact Hb1|]. split; [exact Hb2|].
  clear - Hle. split.
  - induction (grabbed (stream v)) as [|f l IH]; simpl; constructor; auto.
    unfold white_of. apply inj_le.
    induction (pixels f) as [|p ps IHp]; simpl; [lia|].
    destruct (Z.ltb_spec t2 (luma p)), (Z.ltb_spec t1 (luma p)); simpl; lia.
  - induction (grabbed (stream v)) as [|f l IH]; simpl; constructor; auto.
    unfold black_of. apply inj_le.
    induction (pixels f) as [|p ps IHp]; simpl; [lia|].
    destruct (Z.leb_spec (luma p) t2), (Z.leb_spec (luma p) t1); simpl; lia.
Qed.

End Host.

Local Abbreviation demo_binarization :=
  (video_binarization DemoHost.fs DemoHost.luma DemoHost.wide_threshold).

Lemma inference_lists_every_frame_witness :
  let run := video_inference_model DemoHost.fs (str_of "C:\clips\a.mp4") in
  exists v colors,
    DemoHost.fs (str_of "C:\clips\a.mp4") = Some v /\
    lookup_list (payload_of (snd run)) "color_analysis"
      = Some (List.map (fun c => VList (List.map VFloat c)) colors) /\
    colors = List.map mean_color (grabbed (stream v)) /\
    length colors = pos (fst run) /\
    Forall (fun c => length c = 3) colors /\
    payload_of (snd run) !! "fps" = Some (VFloat (prop_fps v)).
Proof.
  apply (inference_lists_every_frame DemoHost.fs (str_of "C:\clips\a.mp4")).
  - vm_compute. reflexivity.
  - vm_compute. reflexivity.
Defined.

Lemma inference_released_after_loop_witness :
  let run := video_inference_model DemoHost.fs (str_of "C:\clips\broken.mp4") in
  opened (fst run) = false /\
  pos (fst run) = length (grabbed (stream DemoHost.broken_clip)) /\
  match first_error (stream DemoHost.broken_clip) with
  | Some e => snd run = Raise e
  | None => exists d, snd run = Ok d
  end.
Proof.
  apply (inference_released_after_loop DemoHost.fs (str_of "C:\clips\broken.mp4")
           DemoHost.broken_clip 3 (Finite (Qred (inject_Z 3 / 25))));
    reflexivity.
Defined.

Lemma binarization_released_after_loop_witness :
  let run := demo_binarization (str_of "C:\clips\broken.mp4") 127 in
  opened (fst run) = false /\
  pos (fst run) = 1 /\
  snd run = Raise CvError.
Proof.
  apply (binarization_released_after_loop DemoHost.fs DemoHost.luma
           DemoHost.wide_threshold (str_of "C:\clips\broken.mp4") 127
           DemoHost.broken_clip 3 2 2 (Finite (Qred (inject_Z 3 / 25))));
    reflexivity.
Defined.

(** A threshold that no C double holds: the first frame is read, the
    conversion fails, and the capture is released all the same. *)
Example unconverted_threshold_released :
  let run := demo_binarization (str_of "C:\clips\a.mp4") (10 ^ 400) in
  opened (fst run) = false /\ pos (fst run) = 1 /\ snd run = Raise CvError.
Proof. vm_compute. auto. Qed.

(** From [2 ^ 31] on, the host of the examples turns every pixel white. *)
Example wide_threshold_all_white :
  lookup_stats (payload_of (snd (demo_binarization (str_of "C:\clips\a.mp4") (2 ^ 31))))
    "white_pixel_counts" = Some [VInt 4; VInt 4].
Proof. vm_compute. reflexivity. Qed.

Lemma white_counts_antitone_witness :
  let low := demo_binarization (str_of "C:\clips\a.mp4") 50 in
  exists cap2 d2 ws1 ws2 bs1 bs2,
    demo_binarization (str_of "C:\clips\a.mp4") 200 = (cap2, Ok d2) /\
    d2 !! "success" = Some (VBool true) /\
    lookup_stats (payload_of (snd low)) "white_pixel_counts" = Some (List.map VInt ws1) /\
    lookup_stats d2 "white_pixel_counts" = Some (List.map VInt ws2) /\
    lookup_stats (payload_of (snd low)) "black_pixel_counts" = Some (List.map VInt bs1) /\
    lookup_stats d2 "black_pixel_counts" = Some (List.map VInt bs2) /\
    Forall2 (fun high low => (high <= low)%Z) ws2 ws1 /\
    Forall2 (fun low high => (low <= high)%Z) bs1 bs2.
Proof.
  apply (white_counts_antitone DemoHost.fs DemoHost.luma DemoHost.wide_threshold
           (str_of "C:\clips\a.mp4") 50 200
           (fst (demo_binarization (str_of "C:\clips\a.mp4") 50))).
  - vm_compute. discriminate.
  - lia.
  - reflexivity.
  - vm_compute. reflexivity.
  - vm_compute. reflexivity.
Defined.

(** On the clip of the examples the counts do move: three white pixels of
    each frame at threshold 50, one and none at 200. *)
Example white_counts_sample :
  lookup_stats (payload_of (snd (demo_binarization (str_of "C:\clips\a.mp4") 50)))
    "white_pixel_counts" = Some [VInt 3; VInt 3] /\
  lookup_stats (payload_of (snd (demo_binarization (str_of "C:\clips\a.mp4") 200)))
    "white_pixel_counts" = Some [VInt 1; VInt 0].
Proof. split; vm_compute; reflexivity. Qed.

End HostFacts.

(* ===================================================================== *)
(** * Path and question extraction: further properties *)
(* ===================================================================== *)

Module ExtractMore.

Import re Spec Client ReFacts.

(** ** [strip] *)

Lemma lstrip_split s :
  exists front, s = front ++ lstrip s /\ forallb isspace front = true.
Proof.
  induction s as [|c t (front & Ht & Hf)]; simpl.
  - exists []. auto.
  - destruct (isspace c) eqn:Hc.
    + exists (c :: front). simpl. rewrite Hc, Hf. split; [f_equal; auto|auto].
    + exists []. auto.
Qed.

Lemma lstrip_head s c rest : lstrip s = c :: rest -> isspace c = false.
Proof.
  induction s as [|x t IH]; simpl; [discriminate|].
  destruct (isspace x) eqn:Hx; auto. intros [= <- _]. auto.
Qed.

Lemma lstrip_id s c rest : s = c :: rest -> isspace c = false -> lstrip s = s.
Proof. intros -> Hc. simpl. rewrite Hc. reflexivity. Qed.

Lemma rstrip_split s :
  exists back, s = rstrip s ++ back /\ forallb isspace back = true.
Proof.
  unfold rstrip. destruct (lstrip_split (rev s)) as (front & Hs & Hf).
  exists (rev front). split.
  - rewrite <- rev_app_distr, <- Hs, rev_involutive. reflexivity.
  - rewrite forallb_forall in *. intros x Hx. apply Hf. apply in_rev. auto.
Qed.

Lemma rstrip_last s c front : rstrip s = front ++ [c] -> isspace c = false.
Proof.
  unfold rstrip. intros H.
  apply (f_equal (@rev pychar)) in H. rewrite rev_involutive, rev_app_distr in H.
  simpl in H. eapply lstrip_head; eauto.
Qed.

Lemma rstrip_keeps_head c t :
  isspace c = false -> exists t', rstrip (c :: t) = c :: t'.
Proof.
  intros Hc. destruct (rstrip_split (c :: t)) as (back & Hs & Hb).
  destruct (rstrip (c :: t)) as [|x t'] eqn:Hr.
  - simpl in Hs. subst back. simpl in Hb. rewrite Hc in Hb. discriminate.
  - simpl in Hs. injection Hs as <- _. eauto.
Qed.

(** What [strip] returns has no whitespace at either end. *)
Lemma strip_trimmed s : trimmed (strip s).
Proof.
  unfold strip. split.
  - intros c rest H.
    destruct (lstrip s) as [|x t] eqn:Hl; [discriminate|].
    pose proof (lstrip_head _ _ _ Hl) as Hx.
    destruct (rstrip_keeps_head x t Hx) as (t' & Hr).
    rewrite Hr in H. injection H as <- _. auto.
  - intros c front H. eapply rstrip_last; eauto.
Qed.

(** ** Substitution when nothing matches *)

Lemma sub_no_match r repl : forall s,
  (forall j, match_at r (drop j s) = None) -> sub r repl s = s.
Proof.
  unfold sub. induction s as [|c t IH]; intros H; simpl; auto.
  pose proof (H 0) as H0. simpl in H0. rewrite H0.
  f_equal. apply IH. intros j. apply (H (S j)).
Qed.

(** ** The case-sensitive patterns match less *)

Lemma lit_false_true c x : lit false c x = true -> lit true c x = true.
Proof.
  unfold lit. intros H. apply N.eqb_eq in H. subst.
  rewrite N.eqb_refl. reflexivity.
Qed.

Lemma letter_false_true d : letter false d = true -> letter true d = true.
Proof.
  unfold letter, lower. intros H. apply orb_true_iff in H.
  destruct H as [H|H]; apply andb_true_iff in H as [A B];
    apply N.leb_le in A, B.
  - destruct ((65 <=? d) && (d <=? 90))%N eqn:H1.
    + apply andb_true_iff in H1 as [C D]. apply N.leb_le in C, D. lia.
    + destruct (N.eqb_spec d 304); [lia|]. destruct (N.eqb_spec d 8490); [lia|].
      rewrite !orb_true_iff. left. left.
      apply andb_true_iff. split; apply N.leb_le; lia.
  - assert ((65 <=? d) && (d <=? 90) = true)%N as ->
      by (apply andb_true_iff; split; apply N.leb_le; lia).
    rewrite !orb_true_iff. left. left.
    apply andb_true_iff. split; apply N.leb_le; lia.
Qed.

Lemma spells_false_true name : forall e,
  spells false name e = true -> spells true name e = true.
Proof.
  induction name as [|c name IH]; intros [|x e]; cbn [spells]; auto.
  rewrite !andb_true_iff. intros [H1 H2]. split.
  - apply lit_false_true. exact H1.
  - apply IH. exact H2.
Qed.

Lemma is_video_ext_false_true e :
  is_video_ext false e = true -> is_video_ext true e = true.
Proof.
  unfold is_video_ext. rewrite !existsb_exists.
  intros (name & Hin & H). exists name. split; auto using spells_false_true.
Qed.

Lemma strict_path_false_true p : strict_path false p -> strict_path true p.
Proof.
  intros (d & sep & body & e & -> & Hd & Hsep & Hbody & He).
  exists d, sep, body, e.
  split; auto. split; [apply letter_false_true; auto|].
  split; auto. split; auto. apply is_video_ext_false_true; auto.
Qed.

Lemma backslash_path_strict p : backslash_path p -> strict_path false p.
Proof.
  intros (d & body & e & -> & Hd & Hbody & He).
  exists d, (ch "\"), body, e. split; auto.
Qed.

(** ** server.py's pattern *)

Lemma backslash_path_matches p : backslash_path p <-> matches Server.pattern p.
Proof.
  unfold backslash_path, Server.pattern. split.
  - intros (d & body & e & -> & Hd & Hbody & He).
    apply (matches_cat _ _ [d]); [constructor; auto|].
    apply (matches_cat _ _ [ch ":"]); [constructor; apply lit_colon; auto|].
    apply (matches_cat _ _ [ch "\"]); [constructor; apply lit_backslash; auto|].
    apply (matches_cat _ _ body); [constructor; auto|].
    apply (matches_cat _ _ [ch "."]); [constructor; apply lit_dot; auto|].
    apply extensions_spec; auto.
  - intros H.
    inversion H as [|? ? w1 r1 H1 Hr1| | | |]; subst; clear H.
    inversion Hr1 as [|? ? w2 r2 H2 Hr2| | | |]; subst; clear Hr1.
    inversion Hr2 as [|? ? w3 r3 H3 Hr3| | | |]; subst; clear Hr2.
    inversion Hr3 as [|? ? w4 r4 H4 Hr4| | | |]; subst; clear Hr3.
    inversion Hr4 as [|? ? w5 r5 H5 Hr5| | | |]; subst; clear Hr4.
    inversion H1; inversion H2; inversion H3; inversion H4; inversion H5; subst.
    apply extensions_spec in Hr5.
    match goal with H : lit false ":" _ = true |- _ => apply lit_colon in H; subst end.
    match goal with H : lit false "." _ = true |- _ => apply lit_dot in H; subst end.
    match goal with H : lit false "\" _ = true |- _ => apply lit_backslash in H; subst end.
    eexists _, _, _. split; [reflexivity|]. auto.
Qed.

Lemma server_pattern_first_longest s x l :
  run Server.pattern s = x :: l ->
  forall y, In y (x :: l) -> length x <= length y.
Proof.
  unfold Server.pattern. rewrite chr_cat_run.
  destruct s as [|c1 s]; [discriminate|]. destruct (letter false c1); [|discriminate].
  rewrite chr_cat_run.
  destruct s as [|c2 s]; [discriminate|]. destruct (lit false ":" c2); [|discriminate].
  rewrite chr_cat_run.
  destruct s as [|c3 s]; [discriminate|]. destruct (lit false "\" c3); [|discriminate].
  apply (star_cat_first_longest _ _ 4). apply tail_width.
Qed.

Lemma search_server_pattern_spec q i m :
  search Server.pattern q = Some (i, m) ->
  occurs_at backslash_path q i m /\
  forall j p, occurs_at backslash_path q j p ->
    i <= j /\ (j = i -> length p <= length m).
Proof.
  intros Hs. pose proof (search_some _ _ _ _ Hs) as (_ & Hm & _).
  apply search_leftmost in Hs as [Hocc Hmin]. split.
  - eapply occurs_at_iff; [apply backslash_path_matches|]; auto.
  - intros j p Hp.
    apply (occurs_at_iff _ (matches Server.pattern)) in Hp; [|apply backslash_path_matches].
    destruct (Hmin _ _ Hp) as [Hij Heq]. split; auto.
    intros ->. destruct Hp as [Hp _].
    destruct (Heq eq_refl) as (rest & rest' & _ & Hd').
    apply match_at_first in Hm as (x & l & Hrun & Hx).
    assert (In rest' (run Server.pattern (drop i q))) as Hin
      by (apply run_spec; eauto).
    rewrite Hrun in Hin. apply (server_pattern_first_longest _ _ _ Hrun) in Hin.
    assert (length (drop i q) = length p + length rest')
      by (rewrite Hd', length_app; auto).
    assert (length (drop i q) = length m + length x)
      by (rewrite Hx at 1; apply length_app).
    lia.
Qed.

(** X7: server.py's [extract_video_path] returns the backslash path that starts
    leftmost in the query, the longest one starting there, and [None]
    exactly when the query holds no such path. *)
Theorem server_extract_video_path_leftmost (q : pystr) :
  match Server.extract_video_path q with
  | Some p =>
      exists i, occurs_at backslash_path q i p /\
        forall j p', occurs_at backslash_path q j p' ->
          i <= j /\ (j = i -> length p' <= length p)
  | None => forall j p, ~ occurs_at backslash_path q j p
  end.
Proof.
  unfold Server.extract_video_path.
  destruct (search Server.pattern q) as [[i m]|] eqn:Hs.
  - exists i. apply search_server_pattern_spec. auto.
  - intros j p Hocc.
    pose proof (proj1 (search_none_occurs _ _) Hs) as Hn. apply (Hn j p).
    eapply occurs_at_iff; [|apply Hocc]. intros x. symmetry.
    apply backslash_path_matches.
Qed.

(** X8: Whatever path server.py's extraction finds in a query, the client's
    extraction finds one too, starting no later in the query and, when it
    starts at the same place, at least as long. *)
Theorem server_path_found_by_client (q p : pystr) :
  Server.extract_video_path q = Some p ->
  exists i p' i',
    occurs_at backslash_path q i p /\
    extract_video_path q = Some p' /\
    occurs_at (strict_path true) q i' p' /\
    i' <= i /\ (i' = i -> length p <= length p').
Proof.
  unfold Server.extract_video_path.
  destruct (search Server.pattern q) as [[i m]|] eqn:Hs; [|discriminate].
  intros [= <-]. apply search_server_pattern_spec in Hs as [Hocc _].
  assert (occurs_at (strict_path true) q i m) as Hocc'.
  { destruct Hocc as [Hp Hq]. split; auto.
    apply strict_path_false_true, backslash_path_strict. auto. }
  unfold extract_video_path.
  destruct (search (pattern true) q) as [[i' p']|] eqn:Hc.
  - apply search_pattern_spec in Hc as [H0 Hmin].
    destruct (Hmin _ _ Hocc') as [Hle Hlen].
    exists i, p', i'. repeat split; auto; try apply Hocc; try apply H0.
  - rewrite search_pattern_none in Hc. destruct (Hc _ _ Hocc').
Qed.

(** ** client.py's question extraction *)

(** X9: The question returned is never empty, and it is either the default
    question or a text with no whitespace at either end. *)
Theorem extract_text_question_nonempty_trimmed (q : pystr) :
  extract_text_question q <> [] /\
  (extract_text_question q = default_question \/ trimmed (extract_text_question q)).
Proof.
  unfold extract_text_question.
  destruct (strip (sub (pattern false) [] q)) as [|c t] eqn:Hs.
  - split; [discriminate|auto].
  - split; [discriminate|]. right. rewrite <- Hs. apply strip_trimmed.
Qed.

(** X10: When [extract_video_path] finds no path in the query, the question is
    the whole query, trimmed (the default question when that is empty). *)
Theorem no_path_question_is_trimmed_query (q : pystr) :
  extract_video_path q = None ->
  extract_text_question q =
    match strip q with
    | [] => default_question
    | t => t
    end.
Proof.
  unfold extract_video_path.
  destruct (search (pattern true) q) as [m|] eqn:Hs; [discriminate|].
  intros _. unfold extract_text_question.
  rewrite (sub_no_match (pattern false) [] q); [destruct (strip q); reflexivity|].
  intros j. apply match_at_none. intros w rest Hd Hw.
  pose proof (search_none _ _ Hs j) as Hn. rewrite match_at_none in Hn.
  apply (Hn w rest Hd).
  apply strict_path_matches, strict_path_false_true, strict_path_matches. auto.
Qed.

(** ** What an extracted path looks like *)

Lemma letter_not_newline ic d : letter ic d = true -> d <> 10%N.
Proof. intros H ->. destruct ic; vm_compute in H; discriminate. Qed.

Lemma spells_chars ic name : forall e x,
  spells ic name e = true -> In x e ->
  exists c, In c (list_ascii_of_string name) /\ lit ic c x = true.
Proof.
  induction name as [|c name IH]; intros [|y e] x; cbn [spells]; try discriminate.
  - intros _ [].
  - rewrite andb_true_iff. intros [H1 H2] [<-|Hin].
    + exists c. split; [left; auto|auto].
    + destruct (IH e x H2 Hin) as (c' & Hc & Hl). exists c'. split; [right; auto|auto].
Qed.

Lemma video_ext_no_newline ic e :
  is_video_ext ic e = true -> length e = 3 /\ ~ In 10%N e.
Proof.
  intros H. split.
  - apply extensions_spec in H. apply extensions_width in H. auto.
  - intros Hin. unfold is_video_ext in H. apply existsb_exists in H as (name & Hn & Hsp).
    destruct (spells_chars _ _ _ _ Hsp Hin) as (c & Hc & Hl).
    simpl in Hn.
    destruct Hn as [<-|[<-|[<-|[<-|[<-|[]]]]]]; simpl in Hc;
      repeat (destruct Hc as [<-|Hc]; [destruct ic; vm_compute in Hl; discriminate|]);
      destruct Hc.
Qed.

Lemma forallb_no_newline (cs : pychar -> bool) body :
  cs 10%N = false -> forallb cs body = true -> ~ In 10%N body.
Proof.
  intros Hc Hb Hin. rewrite forallb_forall in Hb. rewrite (Hb _ Hin) in Hc.
  discriminate.
Qed.

Lemma strict_path_one_line ic p :
  strict_path ic p -> 7 <= length p /\ ~ In 10%N p.
Proof.
  intros (d & sep & body & e & -> & Hd & Hsep & Hbody & He).
  destruct (video_ext_no_newline _ _ He) as [Hlen Hnl].
  split.
  - simpl. rewrite length_app. simpl. lia.
  - simpl. rewrite in_app_iff. simpl.
    intros [H|[H|[H|[H|[H|H]]]]]; try discriminate.
    + apply (letter_not_newline _ _ Hd). auto.
    + subst. vm_compute in Hsep. discriminate.
    + apply (forallb_no_newline path_char body); auto.
    + auto.
Qed.

Lemma loose_path_one_line ic p :
  loose_path ic p -> 7 <= length p /\ ~ In 10%N p.
Proof.
  intros (d & body & e & -> & Hd & Hbody & He).
  destruct (video_ext_no_newline _ _ He) as [Hlen Hnl].
  split.
  - simpl. rewrite length_app. simpl. lia.
  - simpl. rewrite in_app_iff. simpl.
    intros [H|[H|[H|[H|[H|H]]]]]; try discriminate.
    + apply (letter_not_newline _ _ Hd). auto.
    + apply (forallb_no_newline dot body); auto.
    + auto.
Qed.

(** X11: A path returned by [extract_video_path] is a part of the query that
    lies on one line (it holds no line feed) and has at least seven
    characters. *)
Theorem extracted_path_on_one_line (q p : pystr) :
  extract_video_path q = Some p ->
  (exists front back, q = front ++ p ++ back) /\
  7 <= length p /\ ~ In 10%N p.
Proof.
  unfold extract_video_path.
  destruct (search (pattern true) q) as [[i m]|] eqn:Hs.
  - intros [= <-]. apply search_pattern_spec in Hs as [[Hp (front & back & Hq & _)] _].
    split; [eauto|]. apply (strict_path_one_line true). auto.
  - destruct (search (simple_pattern true) q) as [[i m]|] eqn:Hl; [|discriminate].
    intros [= <-].
    apply search_simple_pattern_spec in Hl as [[Hp (front & back & Hq & _)] _].
    split; [eauto|]. apply (loose_path_one_line true). auto.
Qed.

Lemma extracted_path_on_one_line_witness :
  (exists front back,
     str_of "look at C:\x\y.mkv please" = front ++ str_of "C:\x\y.mkv" ++ back) /\
  7 <= length (str_of "C:\x\y.mkv") /\ ~ In 10%N (str_of "C:\x\y.mkv").
Proof.
  apply (extracted_path_on_one_line (str_of "look at C:\x\y.mkv please")
           (str_of "C:\x\y.mkv")).
  vm_compute. reflexivity.
Defined.

Lemma server_path_found_by_client_witness :
  exists i p' i',
    occurs_at backslash_path (str_of "open D:\v\a.mp4 and b.MOV") i
      (str_of "D:\v\a.mp4") /\
    extract_video_path (str_of "open D:\v\a.mp4 and b.MOV") = Some p' /\
    occurs_at (strict_path true) (str_of "open D:\v\a.mp4 and b.MOV") i' p' /\
    i' <= i /\ (i' = i -> length (str_of "D:\v\a.mp4") <= length p').
Proof.
  apply (server_path_found_by_client (str_of "open D:\v\a.mp4 and b.MOV")
           (str_of "D:\v\a.mp4")).
  vm_compute. reflexivity.
Defined.

Lemma no_path_question_is_trimmed_query_witness :
  extract_text_question (str_of "  what is in my video?  ") =
    match strip (str_of "  what is in my video?  ") with
    | [] => default_question
    | t => t
    end.
Proof.
  apply (no_path_question_is_trimmed_query (str_of "  what is in my video?  ")).
  vm_compute. reflexivity.
Defined.

End ExtractMore.

(* ===================================================================== *)
(** * client.py: further properties of the orchestrator *)
(* ===================================================================== *)

Module LoopFacts.

Import Spec Client Orchestrator OrchestratorFacts ExtractMore.

(** ** [strip] around a trimmed text *)

Lemma lstrip_spaces a s : forallb isspace a = true -> lstrip (a ++ s) = lstrip s.
Proof.
  induction a as [|c a IH]; simpl; auto.
  intros H. apply andb_true_iff in H as [-> H]. auto.
Qed.

Lemma strip_sandwich a core b :
  forallb isspace a = true -> forallb isspace b = true ->
  core <> [] -> trimmed core ->
  strip (a ++ core ++ b) = core.
Proof.
  intros Ha Hb Hne [Hhead Hlast]. unfold strip, rstrip.
  rewrite lstrip_spaces by auto.
  destruct core as [|c t]; [congruence|].
  rewrite (lstrip_id ((c :: t) ++ b) c (t ++ b)); [|reflexivity|eapply Hhead; eauto].
  rewrite rev_app_distr, lstrip_spaces.
  - destruct (rev (c :: t)) as [|x r] eqn:Hr.
    + apply (f_equal (@rev pychar)) in Hr. rewrite rev_involutive in Hr. discriminate.
    + rewrite (lstrip_id (x :: r) x r); auto.
      * rewrite <- Hr. apply rev_involutive.
      * apply (Hlast x (rev r)).
        apply (f_equal (@rev pychar)) in Hr. rewrite rev_involutive in Hr.
        rewrite Hr. reflexivity.
  - rewrite forallb_forall in *. intros x Hx. apply Hb. apply in_rev. auto.
Qed.

Lemma ascii_lower_inv c l :
  ascii_lower c = l -> (97 <= l <= 122)%N -> c = l \/ c = (l - 32)%N.
Proof.
  unfold ascii_lower.
  destruct ((65 <=? c) && (c <=? 90))%N eqn:H; intros <- Hl; [right; lia|left; auto].
Qed.

(** Any spelling of [quit], in either letter case, is a trimmed text. *)
Lemma quit_spelling_trimmed core :
  List.map ascii_lower core = str_of "quit" -> core <> [] /\ trimmed core.
Proof.
  destruct core as [|c1 [|c2 [|c3 [|c4 [|c5 rest]]]]]; try discriminate.
  intros H. simpl in H. injection H as H1 H2 H3 H4.
  apply ascii_lower_inv in H1, H4; try (vm_compute; split; discriminate).
  split; [discriminate|]. split.
  - intros c rest [= <- _]. destruct H1 as [->| ->]; reflexivity.
  - intros c front Hf.
    assert (c = c4) as ->.
    { apply (f_equal (@rev pychar)) in Hf. rewrite rev_app_distr in Hf.
      simpl in Hf. injection Hf as ->. reflexivity. }
    destruct H4 as [->| ->]; reflexivity.
Qed.

Lemma concat_repeat_comm {A} (x : list A) n :
  concat (repeat x n) ++ x = x ++ concat (repeat x n).
Proof.
  induction n as [|n IH]; simpl; [rewrite app_nil_r; auto|].
  rewrite <- app_assoc, IH. reflexivity.
Qed.

Section WithEnv.

Variable E : Env.

(** ** process_query *)

(** X12: When the gateway's first reply does not ask for a tool,
    [process_query] returns the content of its first choice: it has listed
    the tools, made one gateway call, and invoked no tool. *)
Theorem direct_answer_no_tool
    (w w1 w2 : W E) (q : pystr) (tools : list tool) (resp : response)
    (c : choice) (cs : list choice) :
  session_list_tools E w = (w1, Ok tools) ->
  completions_create E [UserText q] (Some tools) w1 = (w2, Ok resp) ->
  choices resp = c :: cs ->
  finish_reason c <> str_of "tool_calls" ->
  process_query E q (start w) =
    ({| world := w2;
        log := [EvGateway [UserText q] (Some tools);
                EvPrint (PToolDescription tools); EvListTools] |},
     Ok (content (message_ c))).
Proof.
  intros Hlist Hcreate Hchoices Hfinish. unfold process_query.
  erewrite bind_ok; [|apply list_tools_run; eassumption].
  erewrite bind_ok; [|reflexivity].
  erewrite bind_ok; [|apply create_run; cbn [world]; eassumption].
  rewrite Hchoices. erewrite bind_ok; [|reflexivity].
  unfold streq. rewrite bool_decide_eq_false_2 by auto. reflexivity.
Qed.

(** X13: Whatever the outside answers, one call of [process_query] makes at
    most two gateway calls and at most two Tool Host invocations, and it
    invokes no tool before its first gateway call. *)
Theorem process_query_call_bounds (q : pystr) (s : state E) :
  exists evs,
    trace (fst (process_query E q s)) = trace s ++ evs /\
    gateway_calls evs <= 2 /\
    tool_invocations evs <= 2 /\
    tool_invocations (before_gateway 1 evs) = 0.
Proof.
  destruct (session_list_tools E (world s)) as [w1 [tools|e]] eqn:Hlist.
  2:{ exists [EvListTools]. unfold process_query.
      erewrite bind_raise; [|apply list_tools_run; eassumption].
      repeat split; auto. }
  destruct (completions_create E [UserText q] (Some tools) w1)
    as [w2 [resp|e]] eqn:Hcreate.
  2:{ exists [EvListTools; EvPrint (PToolDescription tools);
              EvGateway [UserText q] (Some tools)].
      unfold process_query.
      erewrite bind_ok; [|apply list_tools_run; eassumption].
      erewrite bind_ok; [|reflexivity].
      erewrite bind_raise; [|apply create_run; cbn [world]; eassumption].
      split; [|repeat split; auto].
      unfold trace. cbn [fst log rev]. rewrite <- !app_assoc. reflexivity. }
  assert (forall r : result (option pystr),
    exists evs,
      trace (E := E)
            (fst ({| world := w2;
                     log := EvGateway [UserText q] (Some tools)
                            :: EvPrint (PToolDescription tools) :: EvListTools :: log s |},
                  r)) = trace s ++ evs /\
      gateway_calls evs <= 2 /\ tool_invocations evs <= 2 /\
      tool_invocations (before_gateway 1 evs) = 0) as Hstop.
  { intros r. exists [EvListTools; EvPrint (PToolDescription tools);
                      EvGateway [UserText q] (Some tools)].
    split; [|repeat split; auto].
    unfold trace. cbn [fst log rev]. rewrite <- !app_assoc. reflexivity. }
  destruct (choices resp) as [|c cs] eqn:Hchoices.
  { unfold process_query.
    erewrite bind_ok; [|apply list_tools_run; eassumption].
    erewrite bind_ok; [|reflexivity].
    erewrite bind_ok; [|apply create_run; cbn [world]; eassumption].
    rewrite Hchoices. erewrite bind_raise; [|reflexivity]. apply Hstop. }
  destruct (streq (finish_reason c) (str_of "tool_calls")) eqn:Hfinish.
  2:{ unfold process_query.
      erewrite bind_ok; [|apply list_tools_run; eassumption].
      erewrite bind_ok; [|reflexivity].
      erewrite bind_ok; [|apply create_run; cbn [world]; eassumption].
      rewrite Hchoices. erewrite bind_ok; [|reflexivity].
      rewrite Hfinish. apply Hstop. }
  destruct (tool_calls (message_ c)) as [[|tc tcs]|] eqn:Hcalls.
  - unfold process_query.
    erewrite bind_ok; [|apply list_tools_run; eassumption].
    erewrite bind_ok; [|reflexivity].
    erewrite bind_ok; [|apply create_run; cbn [world]; eassumption].
    rewrite Hchoices. erewrite bind_ok; [|reflexivity].
    rewrite Hfinish, Hcalls. erewrite bind_raise; [|reflexivity]. apply Hstop.
  - apply streq_true in Hfinish.
    rewrite (process_query_selects E s w1 w2 q tools resp c cs tc tcs
               Hlist Hcreate Hchoices Hfinish Hcalls).
    destruct (json_loads E (function_arguments tc)) as [tool_args|e].
    + erewrite bind_ok; [|reflexivity].
      match goal with
      | |- context [handle_tool_call E q ?m c tc tool_args ?s0] =>
          destruct (spec_handle_tool_call E q m c tc tool_args s0)
            as (evs & Hlog & mid & tail & -> & Hg & Hi & Hle & Hcase)
      end.
      apply trace_appended in Hlog.
      exists ([EvListTools; EvPrint (PToolDescription tools);
               EvGateway [UserText q] (Some tools)] ++ mid ++ tail).
      split.
      * rewrite Hlog. unfold trace at 1. cbn [log rev].
        rewrite <- !app_assoc. reflexivity.
      * assert (tool_invocations mid <= 2)
          by (destruct (is_video_tool (function_name tc)); lia).
        assert (gateway_calls tail <= 1 /\ tool_invocations tail = 0) as [Hgt Htt]
          by (destruct Hcase as [[_ ->]|[_ [msgs ->]]]; split; auto).
        rewrite !gateway_calls_app, !tool_invocations_app, Hg, Htt.
        change (gateway_calls [EvListTools; EvPrint (PToolDescription tools);
                               EvGateway [UserText q] (Some tools)]) with 1.
        change (tool_invocations [EvListTools; EvPrint (PToolDescription tools);
                                  EvGateway [UserText q] (Some tools)]) with 0.
        split; [lia|]. split; [lia|]. reflexivity.
    + erewrite bind_raise; [|reflexivity]. apply Hstop.
  - unfold process_query.
    erewrite bind_ok; [|apply list_tools_run; eassumption].
    erewrite bind_ok; [|reflexivity].
    erewrite bind_ok; [|apply create_run; cbn [world]; eassumption].
    rewrite Hchoices. erewrite bind_ok; [|reflexivity].
    rewrite Hfinish, Hcalls. erewrite bind_raise; [|reflexivity]. apply Hstop.
Qed.

(** ** chat_loop *)

(** X14: One round of [chat_loop] on a line that is not [quit]: an answer is
    printed; an [Exception] raised anywhere in the cycle is printed as one
    error line; in both cases the loop goes on, in the world the cycle has
    left.  What is not an [Exception] (a keyboard interrupt) passes
    through. *)
Theorem chat_round_reports (s : state E) (w0 : W E) (line : pystr) :
  console_input E (world s) = (w0, Ok line) ->
  is_quit (strip line) = false ->
  let s1 := {| world := w0; log := EvInput :: log s |} in
  (forall s2 answer,
     process_query E (strip line) s1 = (s2, Ok answer) ->
     chat_round E s =
       ({| world := world s2; log := EvPrint (PAnswer answer) :: log s2 |}, Ok true)) /\
  (forall s2 e,
     process_query E (strip line) s1 = (s2, Raise e) ->
     chat_round E s =
       if is_Exception e
       then ({| world := world s2; log := EvPrint (PError e) :: log s2 |}, Ok true)
       else (s2, Raise e)).
Proof.
  intros Hin Hquit s1. split.
  - intros s2 answer Hrun. unfold chat_round, try_except.
    erewrite bind_ok; [|apply input_run; eassumption].
    rewrite Hquit. erewrite bind_ok; [|exact Hrun]. reflexivity.
  - intros s2 e Hrun. unfold chat_round, try_except.
    erewrite bind_ok; [|apply input_run; eassumption].
    rewrite Hquit. erewrite bind_raise; [|exact Hrun].
    destruct (is_Exception e); reflexivity.
Qed.

(** X16: A line that spells [quit] in any letter case, with any whitespace
    around it, ends the loop at once: after the banner and the reading of
    that line nothing is listed, asked or invoked. *)
Theorem quit_ends_loop (n : nat) (s : state E) (w0 : W E) (a core b : pystr) :
  console_input E (world s) = (w0, Ok (a ++ core ++ b)) ->
  forallb isspace a = true -> forallb isspace b = true ->
  List.map ascii_lower core = str_of "quit" ->
  chat_loop E (S n) s =
    ({| world := w0; log := EvInput :: EvPrint PBanner :: log s |}, Ok true).
Proof.
  intros Hin Ha Hb Hq. destruct (quit_spelling_trimmed core Hq) as [Hne Ht].
  unfold chat_loop. erewrite bind_ok; [|reflexivity].
  cbn [while_True]. unfold chat_round, try_except.
  erewrite bind_ok; cycle 1.
  { erewrite bind_ok; [|apply input_run; eassumption].
    rewrite strip_sandwich by auto.
    unfold is_quit. rewrite Hq. reflexivity. }
  reflexivity.
Qed.

(** With the console closed, the rounds print one error line each and
    leave the world as it was. *)
Lemma closed_console_rounds (n : nat) (s : state E) :
  console_input E (world s) = (world s, Raise EOFError) ->
  while_True E n (chat_round E) s =
    ({| world := world s;
        log := concat (repeat [EvPrint (PError EOFError); EvInput] n) ++ log s |},
     Ok false).
Proof.
  revert s. induction n as [|n IH]; intros s Hin; cbn [while_True].
  - destruct s; reflexivity.
  - erewrite bind_ok; cycle 1.
    { unfold chat_round, try_except.
      erewrite bind_raise; [|apply input_run; eassumption]. reflexivity. }
    rewrite IH by exact Hin. cbn [world log].
    f_equal. f_equal.
    change (EvPrint (PError EOFError) :: EvInput :: log s)
      with ([EvPrint (PError EOFError); EvInput] ++ log s).
    rewrite app_assoc, concat_repeat_comm. reflexivity.
Qed.

(** X17: With the console closed ([input()] raises [EOFError] each time) the
    loop never ends: after the banner, every round prints one error line
    and leaves the world as it was. *)
Theorem closed_console_spins (n : nat) (s : state E) :
  console_input E (world s) = (world s, Raise EOFError) ->
  chat_loop E n s =
    ({| world := world s;
        log := concat (repeat [EvPrint (PError EOFError); EvInput] n)
               ++ EvPrint PBanner :: log s |},
     Ok false).
Proof.
  intros Hin. unfold chat_loop. erewrite bind_ok; [|reflexivity].
  rewrite closed_console_rounds by exact Hin. reflexivity.
Qed.

End WithEnv.

(** ** On the concrete outside *)

Lemma direct_answer_no_tool_witness :
  let E := DemoEnv.env DemoEnv.final_answer in
  process_query E (str_of "hello") (start (E := E) []) =
    ({| world := ([] : W E);
        log := [EvGateway [UserText (str_of "hello")] (Some DemoEnv.tools);
                EvPrint (PToolDescription DemoEnv.tools); EvListTools] |},
     Ok (Some (str_of "done"))).
Proof.
  apply (direct_answer_no_tool (DemoEnv.env DemoEnv.final_answer) [] [] []
           (str_of "hello") DemoEnv.tools DemoEnv.final_answer
           {| finish_reason := str_of "stop";
              message_ := {| content := Some (str_of "done"); tool_calls := None |} |}
           []); try reflexivity.
  vm_compute. discriminate.
Defined.

Lemma chat_round_reports_witness :
  let E := DemoEnv.env (DemoEnv.selects (str_of "inference_video") (str_of "{}")) in
  let s : state E := start (E := E) [str_of " describe it "] in
  let s1 : state E := {| world := ([] : W E); log := EvInput :: log s |} in
  (forall s2 answer,
     process_query E (strip (str_of " describe it ")) s1 = (s2, Ok answer) ->
     chat_round E s =
       ({| world := world s2; log := EvPrint (PAnswer answer) :: log s2 |}, Ok true)) /\
  (forall s2 e,
     process_query E (strip (str_of " describe it ")) s1 = (s2, Raise e) ->
     chat_round E s =
       if is_Exception e
       then ({| world := world s2; log := EvPrint (PError e) :: log s2 |}, Ok true)
       else (s2, Raise e)).
Proof.
  apply (chat_round_reports
           (DemoEnv.env (DemoEnv.selects (str_of "inference_video") (str_of "{}")))
           (start (E := DemoEnv.env (DemoEnv.selects (str_of "inference_video") (str_of "{}")))
                  [str_of " describe it "])
           [] (str_of " describe it "));
    reflexivity.
Defined.

(** What is not an [Exception] is not caught: a keyboard interrupt at the
    prompt leaves the loop. *)
Example keyboard_interrupt_leaves_loop :
  chat_loop DemoEnv.interrupted 3 (start (E := DemoEnv.interrupted) tt)
    = ({| world := (tt : W DemoEnv.interrupted);
          log := [EvInput; EvPrint PBanner] |}, Raise KeyboardInterrupt).
Proof. reflexivity. Qed.

Lemma quit_ends_loop_witness :
  let E := DemoEnv.env DemoEnv.final_answer in
  chat_loop E 5 (start (E := E) [str_of "  QuIt "; str_of "more"]) =
    ({| world := ([str_of "more"] : W E); log := [EvInput; EvPrint PBanner] |},
     Ok true).
Proof.
  apply (quit_ends_loop (DemoEnv.env DemoEnv.final_answer) 4
           (start (E := DemoEnv.env DemoEnv.final_answer)
                  [str_of "  QuIt "; str_of "more"]) [str_of "more"]
           (str_of "  ") (str_of "QuIt") (str_of " "));
    reflexivity.
Defined.

Lemma closed_console_spins_witness :
  let E := DemoEnv.env DemoEnv.final_answer in
  chat_loop E 3 (start (E := E) []) =
    ({| world := ([] : W E);
        log := concat (repeat [EvPrint (PError EOFError); EvInput] 3)
               ++ [EvPrint PBanner] |},
     Ok false).
Proof.
  apply (closed_console_spins (DemoEnv.env DemoEnv.final_answer) 3
           (start (E := DemoEnv.env DemoEnv.final_answer) [])).
  reflexivity.
Defined.

End LoopFacts.

(* ===================================================================== *)
(** * client.py: start-up, verified *)
(* ===================================================================== *)

Module StartupFacts.

Import Startup.

Lemma startswith_spec : forall (pre s : pystr),
  startswith s pre = true <-> exists rest, s = pre ++ rest.
Proof.
  induction pre as [|p pre IH]; intros s; simpl.
  - destruct s; split; eauto.
  - destruct s as [|c s]; simpl.
    + split; [discriminate|]. intros (rest & H). discriminate.
    + rewrite andb_true_iff, N.eqb_eq, IH. split.
      * intros [-> (rest & ->)]. eauto.
      * intros (rest & [= -> ->]). eauto.
Qed.

Lemma endswith_spec s suffix :
  endswith s suffix = true <-> exists stem, s = stem ++ suffix.
Proof.
  unfold endswith. rewrite startswith_spec. split.
  - intros (rest & H). exists (rev rest).
    apply (f_equal (@rev pychar)) in H.
    rewrite rev_involutive, rev_app_distr, rev_involutive in H. auto.
  - intros (stem & ->). exists (rev stem). apply rev_app_distr.
Qed.

(** X18: [connect_to_server] accepts exactly the script paths that end in [.py]
    or [.js] (in this spelling): it chooses [python] for the first and
    [node] for the second, and raises [ValueError] for any other path. *)
Theorem server_command_spec (path : pystr) :
  match server_command path with
  | Ok command =>
      (exists stem, path = stem ++ str_of ".py") /\ command = str_of "python" \/
      (exists stem, path = stem ++ str_of ".js") /\ command = str_of "node"
  | Raise e =>
      e = ValueError /\
      forall stem, path <> stem ++ str_of ".py" /\ path <> stem ++ str_of ".js"
  end.
Proof.
  unfold server_command.
  destruct (endswith path (str_of ".py")) eqn:Hpy;
    destruct (endswith path (str_of ".js")) eqn:Hjs; cbn [negb andb].
  - left. split; auto. apply endswith_spec. auto.
  - left. split; auto. apply endswith_spec. auto.
  - right. split; auto. apply endswith_spec. auto.
  - split; auto. intros stem. split; intros H.
    + assert (endswith path (str_of ".py") = true) as Ht
        by (apply endswith_spec; eauto).
      congruence.
    + assert (endswith path (str_of ".js") = true) as Ht
        by (apply endswith_spec; eauto).
      congruence.
Qed.

(** X19: [MCPClient.__init__] raises [ValueError] without constructing the
    gateway client exactly when [OPENAI_API_KEY] is missing or empty.
    With any non-empty key it hands the key and [BASE_URL] (possibly
    absent) to the constructor, fails with the constructor's exception if
    that raises, and otherwise keeps the key, [BASE_URL] and [MODEL] as
    read, whatever else the environment holds. *)
Theorem init_needs_api_key (environ : gmap string pystr) :
  ((forall OpenAI, init environ OpenAI = Raise ValueError) <->
     environ !! "OPENAI_API_KEY" = None \/ environ !! "OPENAI_API_KEY" = Some []) /\
  (forall c k OpenAI,
     init (<[ "OPENAI_API_KEY" := c :: k ]> environ) OpenAI =
       match OpenAI (c :: k) (environ !! "BASE_URL") with
       | Raise e => Raise e
       | Ok _ => Ok {| openai_api_key := c :: k;
                       base_url := environ !! "BASE_URL";
                       model := environ !! "MODEL" |}
       end) /\
  (forall OpenAI, init (delete "OPENAI_API_KEY" environ) OpenAI = Raise ValueError).
Proof.
  unfold init, getenv. split; [|split].
  - destruct (environ !! "OPENAI_API_KEY") as [[|c k]|]; split; auto.
    + intros H. specialize (H (fun _ _ => Ok tt)). discriminate.
    + intros [H|H]; discriminate.
  - intros c k OpenAI. rewrite lookup_insert_eq.
    rewrite !lookup_insert_ne by discriminate. reflexivity.
  - intros OpenAI. rewrite lookup_delete_eq. reflexivity.
Qed.

(** X20: Without a script argument [main] prints the usage line and exits with
    status 1, constructing nothing.  With one, once the client is
    constructed, [cleanup] runs exactly once and last, whether the script
    path is refused, the session cannot be set up, or [chat_loop] returns
    or raises; and nothing is spawned for a refused script path. *)
Theorem main_always_cleans_up (argv : list pystr) (environ : gmap string pystr)
    (OpenAI : pystr -> option pystr -> result unit)
    (session chat cleanup : result unit) :
  match argv with
  | _ :: script :: _ =>
      match init environ OpenAI with
      | Raise e => main argv environ OpenAI session chat cleanup = ([], Raised e)
      | Ok _ =>
          exists evs,
            fst (main argv environ OpenAI session chat cleanup)
              = Constructed :: evs ++ [Cleanup] /\
            ~ In Cleanup evs /\ ~ In Constructed evs /\
            (forall e, server_command script = Raise e -> evs = []) /\
            (forall e, cleanup = Raise e ->
               snd (main argv environ OpenAI session chat cleanup) = Raised e)
      end
  | _ => main argv environ OpenAI session chat cleanup = ([Usage], Exited 1)
  end.
Proof.
  destruct argv as [|prog [|script rest]]; try reflexivity.
  unfold main. destruct (init environ OpenAI) as [cfg|e]; [|reflexivity].
  destruct (server_command script) as [command|e] eqn:Hcmd.
  - destruct session as [[]|e].
    + exists [Spawn command script; Chat]. split; [reflexivity|].
      split; [intros [H|[H|[]]]; discriminate|].
      split; [intros [H|[H|[]]]; discriminate|].
      split; [discriminate|]. intros e ->. reflexivity.
    + exists [Spawn command script]. split; [reflexivity|].
      split; [intros [H|[]]; discriminate|].
      split; [intros [H|[]]; discriminate|].
      split; [discriminate|]. intros e' ->. reflexivity.
  - exists []. split; [reflexivity|]. split; [intros []|]. split; [intros []|].
    split; auto. intros e' ->. reflexivity.
Qed.

(** A one-character key is enough; a constructor that refuses its
    arguments makes [__init__] fail with the constructor's exception. *)
Example init_samples :
  init {[ "OPENAI_API_KEY" := str_of "k" ]} (fun _ _ => Ok tt)
    = Ok {| openai_api_key := str_of "k"; base_url := None; model := None |} /\
  init {[ "OPENAI_API_KEY" := str_of "k" ]} (fun _ _ => Raise TypeError)
    = Raise TypeError /\
  init (<[ "OPENAI_API_KEY" := [] ]> {[ "MODEL" := str_of "m" ]}) (fun _ _ => Ok tt)
    = Raise ValueError.
Proof. repeat split. Qed.

Example server_command_samples :
  server_command (str_of "server.py") = Ok (str_of "python") /\
  server_command (str_of "dist/server.js") = Ok (str_of "node") /\
  server_command (str_of "server.PY") = Raise ValueError /\
  server_command (str_of "py") = Raise ValueError.
Proof. repeat split. Qed.

End StartupFacts.
